(** * The UWB survival game server: session and timer state machine

    A shallow embedding of the [GameServer] class of [server.js] and of the
    part of the Node runtime it relies on: the table of armed timeouts
    ([setTimeout] / [clearTimeout]), the wall clock ([Date.now]) and the
    stream of events emitted to the rooms ([io.to(gameId).emit]).

    JavaScript runs the class on a single event loop: a method body or a
    timer callback runs to completion before the next one starts.  The model
    therefore is a sequential transition system whose events are the socket
    messages, the timer firings and the passing of time.

    Numbers: durations and timestamps are integer milliseconds ([Z]) and
    the mercenary multiplier is a rational ([Q]): the values as written.
    JavaScript computes on IEEE-754 binary64 numbers; its two arithmetic
    operations in the class, the product [duration * mercenaryMultiplier]
    and the sum [startTime + duration], are modelled with the rounding to
    the nearest binary64 value ([binary64], [jsTimes], [jsPlus]), and
    [Math.floor] is [Qfloor] of the rounded product.
    Identifiers (game, player, socket ids, roles, abilities, reasons) are
    strings. *)

From Stdlib Require Import ZArith QArith Qround Qabs Qreduction Ascii.
From stdpp Require Import gmap strings list fin_maps.

(** ** Data model *)

(** [game.status]: only these three strings are ever assigned. *)
Inductive GameStatus := waiting | playing | ended.

(** [player.status]: only these three strings are ever assigned. *)
Inductive PlayerStatus := alive | elimination_risk | eliminated.

#[global] Instance GameStatus_eq_dec : EqDecision GameStatus.
Proof. solve_decision. Defined.

#[global] Instance PlayerStatus_eq_dec : EqDecision PlayerStatus.
Proof. solve_decision. Defined.

(** A timer handle, the value returned by [setTimeout].  In Node it is a
    [Timeout] object, always truthy, so that [if (timer)] only tests that a
    handle is there. *)
Abbreviation handle := nat (only parsing).

(** The four closures the class hands to [setTimeout], with the variables
    each one captures. *)
Inductive Callback :=
| CbEndGame (gameId reason : string)
| CbEliminatePlayer (gameId playerId reason : string)
| CbChaseTimeout (gameId hunterId survivorId : string)
| CbCleanupGame (gameId : string).

(** An armed timeout: the delay passed to [setTimeout], the time of the
    call and the callback. *)
Record Timer := mkTimer {
  delay : Z;
  armedAt : Z;
  callback : Callback }.

(** The events sent with [io.to(gameId).emit(name, payload)] (and, for
    [player_joined], with [socket.to(gameId).emit]). *)
Inductive Emit :=
| player_joined (gameId playerId playerName role ability : string) (serverTime : Z)
| game_timer_started (gameId : string) (duration startTime endTime serverTime : Z)
| elimination_risk_started (gameId playerId : string)
    (duration startTime endTime serverTime : Z) (isMercenary : bool)
| elimination_risk_stopped (gameId playerId : string) (serverTime : Z)
| chase_countdown_started (gameId hunterId survivorId : string)
    (duration startTime endTime serverTime : Z) (isGhostAbility : bool)
| chase_countdown_stopped (gameId hunterId survivorId : string) (serverTime : Z)
| chase_timeout (gameId hunterId survivorId : string) (serverTime : Z)
| player_eliminated (gameId playerId reason : string) (timestamp serverTime : Z)
| game_ended (gameId reason : string) (endTime serverTime : Z)
| player_disconnected (gameId playerId : string) (serverTime : Z).

#[global] Instance Emit_eq_dec : EqDecision Emit.
Proof. solve_decision. Defined.

(** The entries of [game.players]. *)
Module Player.

Record t := mk {
  playerId : string;
  playerName : string;
  role : string;
  ability : string;
  socketId : string;
  status : PlayerStatus;
  joinedAt : Z;
  eliminatedAt : option Z;
  eliminationReason : option string }.

Definition set_status (v : PlayerStatus) (p : t) : t :=
  mk (playerId p) (playerName p) (role p) (ability p) (socketId p) v
     (joinedAt p) (eliminatedAt p) (eliminationReason p).

Definition set_eliminatedAt (v : Z) (p : t) : t :=
  mk (playerId p) (playerName p) (role p) (ability p) (socketId p) (status p)
     (joinedAt p) (Some v) (eliminationReason p).

Definition set_eliminationReason (v : string) (p : t) : t :=
  mk (playerId p) (playerName p) (role p) (ability p) (socketId p) (status p)
     (joinedAt p) (eliminatedAt p) (Some v).

End Player.

(** The entries of [this.players], keyed by socket id. *)
Module Binding.

Record t := mk {
  socketId : string;
  playerId : string;
  playerName : string;
  role : string;
  ability : string;
  gameId : string;
  joinedAt : Z }.

End Binding.

(** [game.settings], and the [settings] argument of [getOrCreateGame]: an
    object in which each of the five fields is present or not. *)
Module Settings.

Record t := mk {
  gameDuration : Z;
  eliminationRiskDuration : Z;
  chaseCountdown : Z;
  mercenaryMultiplier : Q;
  ghostChaseCountdown : Z }.

Record supplied := mkSupplied {
  s_gameDuration : option Z;
  s_eliminationRiskDuration : option Z;
  s_chaseCountdown : option Z;
  s_mercenaryMultiplier : option Q;
  s_ghostChaseCountdown : option Z }.

(** The default argument [settings = {}]. *)
Definition none : supplied := mkSupplied None None None None None.

End Settings.

(** The game objects; [game.timers.gameTimer], [.eliminationRiskTimers] and
    [.chaseTimers] are flattened into the record. *)
Module Game.

Record t := mk {
  id : string;
  players : gmap string Player.t;
  status : GameStatus;
  settings : Settings.t;
  gameTimer : option handle;
  eliminationRiskTimers : gmap string handle;
  chaseTimers : gmap string handle;
  startTime : option Z;
  endTime : option Z;
  createdAt : Z;
  endedAt : option Z;
  endReason : option string }.

Definition set_players (v : gmap string Player.t) (g : t) : t :=
  mk (id g) v (status g) (settings g) (gameTimer g) (eliminationRiskTimers g)
     (chaseTimers g) (startTime g) (endTime g) (createdAt g) (endedAt g) (endReason g).

Definition set_status (v : GameStatus) (g : t) : t :=
  mk (id g) (players g) v (settings g) (gameTimer g) (eliminationRiskTimers g)
     (chaseTimers g) (startTime g) (endTime g) (createdAt g) (endedAt g) (endReason g).

Definition set_gameTimer (v : option handle) (g : t) : t :=
  mk (id g) (players g) (status g) (settings g) v (eliminationRiskTimers g)
     (chaseTimers g) (startTime g) (endTime g) (createdAt g) (endedAt g) (endReason g).

Definition set_eliminationRiskTimers (v : gmap string handle) (g : t) : t :=
  mk (id g) (players g) (status g) (settings g) (gameTimer g) v
     (chaseTimers g) (startTime g) (endTime g) (createdAt g) (endedAt g) (endReason g).

Definition set_chaseTimers (v : gmap string handle) (g : t) : t :=
  mk (id g) (players g) (status g) (settings g) (gameTimer g) (eliminationRiskTimers g)
     v (startTime g) (endTime g) (createdAt g) (endedAt g) (endReason g).

Definition set_startTime (v : Z) (g : t) : t :=
  mk (id g) (players g) (status g) (settings g) (gameTimer g) (eliminationRiskTimers g)
     (chaseTimers g) (Some v) (endTime g) (createdAt g) (endedAt g) (endReason g).

Definition set_endTime (v : Z) (g : t) : t :=
  mk (id g) (players g) (status g) (settings g) (gameTimer g) (eliminationRiskTimers g)
     (chaseTimers g) (startTime g) (Some v) (createdAt g) (endedAt g) (endReason g).

Definition set_endedAt (v : Z) (g : t) : t :=
  mk (id g) (players g) (status g) (settings g) (gameTimer g) (eliminationRiskTimers g)
     (chaseTimers g) (startTime g) (endTime g) (createdAt g) (Some v) (endReason g).

Definition set_endReason (v : string) (g : t) : t :=
  mk (id g) (players g) (status g) (settings g) (gameTimer g) (eliminationRiskTimers g)
     (chaseTimers g) (startTime g) (endTime g) (createdAt g) (endedAt g) (Some v).

End Game.

(** The whole state: the two maps of the [GameServer] instance, and the
    runtime around it (armed timeouts, the next fresh handle, the clock
    read by [Date.now], the events emitted so far, oldest first). *)
Record Server := mkServer {
  games : gmap string Game.t;
  players : gmap string Binding.t;
  pending : gmap handle Timer;
  nextTimer : handle;
  clock : Z;
  emitted : list Emit }.

(** [new GameServer()] in a fresh process started at time [t0]. *)
Definition init (t0 : Z) : Server := mkServer ∅ ∅ ∅ 0 t0 [].

(** ** Runtime primitives *)

Definition set_games (v : gmap string Game.t) (s : Server) : Server :=
  mkServer v (players s) (pending s) (nextTimer s) (clock s) (emitted s).

Definition set_players (v : gmap string Binding.t) (s : Server) : Server :=
  mkServer (games s) v (pending s) (nextTimer s) (clock s) (emitted s).

(** Writing a mutated game object back under its id. *)
Definition store_game (gameId : string) (g : Game.t) (s : Server) : Server :=
  set_games (<[gameId := g]> (games s)) s.

(** [setTimeout(cb, d)]: a fresh handle, armed. *)
Definition arm (cb : Callback) (d : Z) (s : Server) : Server :=
  mkServer (games s) (players s)
           (<[nextTimer s := mkTimer d (clock s) cb]> (pending s))
           (S (nextTimer s)) (clock s) (emitted s).

Definition setTimeout (cb : Callback) (d : Z) (s : Server) : handle * Server :=
  (nextTimer s, arm cb d s).

(** [clearTimeout(h)]: disarms [h]; nothing happens if it fired already. *)
Definition clearTimeout (h : handle) (s : Server) : Server :=
  mkServer (games s) (players s) (delete h (pending s))
           (nextTimer s) (clock s) (emitted s).

(** [if (timer) clearTimeout(timer)] *)
Definition clearIfSet (o : option handle) (s : Server) : Server :=
  match o with
  | Some h => clearTimeout h s
  | None => s
  end.

Definition emit (e : Emit) (s : Server) : Server :=
  mkServer (games s) (players s) (pending s) (nextTimer s) (clock s)
           (emitted s ++ [e]).

(** [x || d] on an optional number: [undefined], [null] and [0] are falsy. *)
Definition js_or (x : option Z) (d : Z) : Z :=
  match x with
  | Some v => if (v =? 0)%Z then d else v
  | None => d
  end.

(** [`${hunterId}_${survivorId}`] *)
Definition timerKey (hunterId survivorId : string) : string :=
  hunterId +:+ "_" +:+ survivorId.

(** ** JavaScript numbers

    A JavaScript number is an IEEE-754 binary64 value: a sign, a significand
    of 53 bits and an exponent, that is [m * 2^e] with [|m| < 2^53] and
    [-1074 ≤ e ≤ 971], or an infinity.  The result of an arithmetic
    operation is the exact result rounded to the nearest such value, ties
    going to the even significand. *)

(** [2^e] *)
Definition pow2 (e : Z) : Q :=
  if (0 <=? e)%Z then inject_Z (2 ^ e) else (1 # Z.to_pos (2 ^ (- e)))%Q.

(** The integer [k] with [2^k ≤ |x| < 2^(k+1)], for [x] other than 0. *)
Definition ilog2 (x : Q) : Z :=
  let k := (Z.log2 (Z.abs (Qnum x)) - Z.log2 (Zpos (Qden x)))%Z in
  if Qle_bool (pow2 k) (Qabs x) then k else (k - 1)%Z.

(** The nearest integer, a tie going to the even one. *)
Definition roundHalfEven (x : Q) : Z :=
  let f := Qfloor x in
  match (x - inject_Z f ?= 1 # 2)%Q with
  | Lt => f
  | Gt => (f + 1)%Z
  | Eq => if Z.even f then f else (f + 1)%Z
  end.

(** The binary64 value nearest to [x]; [None] stands for an infinity (the
    rounded magnitude reaches [2^1024]).  The significand has 53 bits from
    the leading bit of [x] down, but no bit below [2^-1074]. *)
Definition binary64 (x : Q) : option Q :=
  let x := Qred x in
  if Qeq_bool x 0 then Some 0%Q else
  let e := Z.max (ilog2 x - 52) (-1074) in
  let y := Qred (inject_Z (roundHalfEven (x / pow2 e)) * pow2 e)%Q in
  if Qle_bool (pow2 1024) (Qabs y) then None else Some y.

(** [a * b] on the numbers written [a] and [b]. *)
Definition jsTimes (a b : Q) : option Q :=
  a ← binary64 a; b ← binary64 b; binary64 (a * b)%Q.

(** [a + b] on two integers.  The sum of two integer binary64 values
    rounds to an integer; a sum that rounds to an infinity has no value in
    [Z] and is left as it is. *)
Definition jsPlus (a b : Z) : Z :=
  match a ← binary64 (inject_Z a); b ← binary64 (inject_Z b);
        binary64 (a + b)%Q with
  | Some q => Qfloor q
  | None => (a + b)%Z
  end.

#[global] Arguments jsPlus : simpl never.

(** ** The methods of [GameServer] *)

(** The object literal of [getOrCreateGame] before the spread: every
    default, three of them guarded by [||]. *)
Definition defaultSettings (settings : Settings.supplied) : Settings.t :=
  Settings.mk
    (js_or (Settings.s_gameDuration settings) 600000)
    (js_or (Settings.s_eliminationRiskDuration settings) 100000)
    (js_or (Settings.s_chaseCountdown settings) 5000)
    3
    3000.

(** [...settings], written last in the literal: every field present in
    [settings] replaces the one before it. *)
Definition spread (settings : Settings.supplied) (base : Settings.t) : Settings.t :=
  Settings.mk
    (default (Settings.gameDuration base) (Settings.s_gameDuration settings))
    (default (Settings.eliminationRiskDuration base)
             (Settings.s_eliminationRiskDuration settings))
    (default (Settings.chaseCountdown base) (Settings.s_chaseCountdown settings))
    (default (Settings.mercenaryMultiplier base)
             (Settings.s_mercenaryMultiplier settings))
    (default (Settings.ghostChaseCountdown base)
             (Settings.s_ghostChaseCountdown settings)).

Definition getOrCreateGame (gameId : string) (settings : Settings.supplied)
    (s : Server) : Game.t * Server :=
  match games s !! gameId with
  | Some game => (game, s)
  | None =>
      let game :=
        Game.mk gameId ∅ waiting (spread settings (defaultSettings settings))
                None ∅ ∅ None None (clock s) None None in
      (game, store_game gameId game s)
  end.

Definition joinGame (socketId gameId playerId playerName role ability : string)
    (s : Server) : Game.t * Server :=
  let '(game, s) := getOrCreateGame gameId Settings.none s in
  let s :=
    set_players
      (<[socketId := Binding.mk socketId playerId playerName role ability
                                gameId (clock s)]> (players s)) s in
  let game :=
    Game.set_players
      (<[playerId := Player.mk playerId playerName role ability socketId
                               alive (clock s) None None]> (Game.players game))
      game in
  (game, store_game gameId game s).

Definition startGameTimer (gameId : string) (customDuration : option Z)
    (s : Server) : bool * Server :=
  match games s !! gameId with
  | None => (false, s)
  | Some game =>
      let s := clearIfSet (Game.gameTimer game) s in
      let duration :=
        js_or customDuration (Settings.gameDuration (Game.settings game)) in
      let startTime := clock s in
      let game := Game.set_startTime startTime game in
      let game := Game.set_endTime (jsPlus startTime duration) game in
      let game := Game.set_status playing game in
      let '(timer, s) := setTimeout (CbEndGame gameId "timeout") duration s in
      let game := Game.set_gameTimer (Some timer) game in
      let s := store_game gameId game s in
      let s :=
        emit (game_timer_started gameId duration startTime
                (jsPlus startTime duration) (clock s)) s in
      (true, s)
  end.

(** [Math.floor(duration * game.settings.mercenaryMultiplier)]: the floor
    of the binary64 product.  A product that rounds to an infinity stays an
    infinity in JavaScript, which a delay in [Z] cannot hold; the model puts
    0 there, and no property below speaks of that case. *)
Definition mercenaryDuration (duration : Z) (multiplier : Q) : Z :=
  match jsTimes (inject_Z duration) multiplier with
  | Some product => Qfloor product
  | None => 0%Z
  end.

#[global] Arguments mercenaryDuration : simpl never.

Definition startEliminationRiskTimer (gameId playerId : string)
    (customDuration : option Z) (s : Server) : bool * Server :=
  match games s !! gameId with
  | None => (false, s)
  | Some game =>
      match Game.players game !! playerId with
      | None => (false, s)
      | Some player =>
          let duration :=
            js_or customDuration
                  (Settings.eliminationRiskDuration (Game.settings game)) in
          let duration :=
            if decide (Player.ability player = "MERCENARY")
            then mercenaryDuration duration
                   (Settings.mercenaryMultiplier (Game.settings game))
            else duration in
          let startTime := clock s in
          let endTime := jsPlus startTime duration in
          let s := clearIfSet (Game.eliminationRiskTimers game !! playerId) s in
          let '(timer, s) :=
            setTimeout
              (CbEliminatePlayer gameId playerId "elimination_risk_timeout")
              duration s in
          let game :=
            Game.set_eliminationRiskTimers
              (<[playerId := timer]> (Game.eliminationRiskTimers game)) game in
          let game :=
            Game.set_players
              (<[playerId := Player.set_status elimination_risk player]>
                 (Game.players game)) game in
          let s := store_game gameId game s in
          let s :=
            emit (elimination_risk_started gameId playerId duration startTime
                    endTime (clock s)
                    (bool_decide (Player.ability player = "MERCENARY"))) s in
          (true, s)
      end
  end.

Definition stopEliminationRiskTimer (gameId playerId : string)
    (s : Server) : bool * Server :=
  match games s !! gameId with
  | None => (false, s)
  | Some game =>
      match Game.eliminationRiskTimers game !! playerId with
      | Some timer =>
          let s := clearTimeout timer s in
          let game :=
            Game.set_eliminationRiskTimers
              (delete playerId (Game.eliminationRiskTimers game)) game in
          let game :=
            match Game.players game !! playerId with
            | Some player =>
                Game.set_players
                  (<[playerId := Player.set_status alive player]>
                     (Game.players game)) game
            | None => game
            end in
          let s := store_game gameId game s in
          let s := emit (elimination_risk_stopped gameId playerId (clock s)) s in
          (true, s)
      | None => (false, s)
      end
  end.

Definition startChaseCountdown (gameId hunterId survivorId : string)
    (isGhostAbility : bool) (s : Server) : bool * Server :=
  match games s !! gameId with
  | None => (false, s)
  | Some game =>
      let duration :=
        if isGhostAbility
        then Settings.ghostChaseCountdown (Game.settings game)
        else Settings.chaseCountdown (Game.settings game) in
      let startTime := clock s in
      let timerKey := timerKey hunterId survivorId in
      let s := clearIfSet (Game.chaseTimers game !! timerKey) s in
      let '(timer, s) :=
        setTimeout (CbChaseTimeout gameId hunterId survivorId) duration s in
      let game :=
        Game.set_chaseTimers (<[timerKey := timer]> (Game.chaseTimers game))
                             game in
      let s := store_game gameId game s in
      let s :=
        emit (chase_countdown_started gameId hunterId survivorId duration
                startTime (jsPlus startTime duration) (clock s) isGhostAbility) s in
      (true, s)
  end.

Definition stopChaseCountdown (gameId hunterId survivorId : string)
    (s : Server) : bool * Server :=
  match games s !! gameId with
  | None => (false, s)
  | Some game =>
      let timerKey := timerKey hunterId survivorId in
      match Game.chaseTimers game !! timerKey with
      | Some timer =>
          let s := clearTimeout timer s in
          let game :=
            Game.set_chaseTimers (delete timerKey (Game.chaseTimers game))
                                 game in
          let s := store_game gameId game s in
          let s :=
            emit (chase_countdown_stopped gameId hunterId survivorId (clock s))
                 s in
          (true, s)
      | None => (false, s)
      end
  end.

Definition chaseTimeout (gameId hunterId survivorId : string)
    (s : Server) : Server :=
  match games s !! gameId with
  | None => s
  | Some game =>
      let timerKey := timerKey hunterId survivorId in
      let game :=
        Game.set_chaseTimers (delete timerKey (Game.chaseTimers game)) game in
      let s := store_game gameId game s in
      emit (chase_timeout gameId hunterId survivorId (clock s)) s
  end.

(** [timers.forEach(timer => clearTimeout(timer))]; the result does not
    depend on the order of the visit. *)
Definition clearEach (timers : gmap string handle) (s : Server) : Server :=
  foldr (λ kv s, clearTimeout kv.2 s) s (map_to_list timers).

Definition endGame (gameId reason : string) (s : Server) : bool * Server :=
  match games s !! gameId with
  | None => (false, s)
  | Some game =>
      let game := Game.set_status ended game in
      let game := Game.set_endedAt (clock s) game in
      let game := Game.set_endReason reason game in
      let '(game, s) :=
        match Game.gameTimer game with
        | Some timer => (Game.set_gameTimer None game, clearTimeout timer s)
        | None => (game, s)
        end in
      let s := clearEach (Game.eliminationRiskTimers game) s in
      let game := Game.set_eliminationRiskTimers ∅ game in
      let s := clearEach (Game.chaseTimers game) s in
      let game := Game.set_chaseTimers ∅ game in
      let s := store_game gameId game s in
      let s := emit (game_ended gameId reason (clock s) (clock s)) s in
      let '(_, s) := setTimeout (CbCleanupGame gameId) 300000 s in
      (true, s)
  end.

(** The filter of [checkGameEndConditions]. *)
Definition aliveSurvivor (p : Player.t) : Prop :=
  Player.role p = "survivor" ∧ Player.status p ≠ eliminated.

#[global] Instance aliveSurvivor_dec p : Decision (aliveSurvivor p).
Proof. unfold aliveSurvivor. apply _. Defined.

(** [Array.from(game.players.values()).filter(...)] *)
Definition aliveSurvivors (game : Game.t) : list Player.t :=
  filter aliveSurvivor (map_to_list (Game.players game)).*2.

Definition checkGameEndConditions (gameId : string) (s : Server) : Server :=
  match games s !! gameId with
  | None => s
  | Some game =>
      if decide (Game.status game ≠ playing) then s
      else if decide (length (aliveSurvivors game) = 0)
           then (endGame gameId "all_survivors_eliminated" s).2
           else s
  end.

(** [reason = 'unknown'] is the default of the parameter. *)
Definition eliminatePlayer (gameId playerId : string) (reason : option string)
    (s : Server) : bool * Server :=
  let reason := default "unknown" reason in
  match games s !! gameId with
  | None => (false, s)
  | Some game =>
      match Game.players game !! playerId with
      | None => (false, s)
      | Some player =>
          let '(game, s) :=
            match Game.eliminationRiskTimers game !! playerId with
            | Some timer =>
                (Game.set_eliminationRiskTimers
                   (delete playerId (Game.eliminationRiskTimers game)) game,
                 clearTimeout timer s)
            | None => (game, s)
            end in
          let player := Player.set_status eliminated player in
          let player := Player.set_eliminatedAt (clock s) player in
          let player := Player.set_eliminationReason reason player in
          let game :=
            Game.set_players (<[playerId := player]> (Game.players game)) game in
          let s := store_game gameId game s in
          let s :=
            emit (player_eliminated gameId playerId reason (clock s) (clock s))
                 s in
          let s := checkGameEndConditions gameId s in
          (true, s)
      end
  end.

Definition cleanupGame (gameId : string) (s : Server) : Server :=
  match games s !! gameId with
  | None => s
  | Some _ =>
      let s :=
        set_players
          (filter (λ kv, Binding.gameId kv.2 ≠ gameId) (players s)) s in
      set_games (delete gameId (games s)) s
  end.

Definition disconnectPlayer (socketId : string) (s : Server) : Server :=
  match players s !! socketId with
  | None => s
  | Some player =>
      let gameId := Binding.gameId player in
      let playerId := Binding.playerId player in
      let s :=
        match games s !! gameId with
        | Some game =>
            let game :=
              Game.set_players (delete playerId (Game.players game)) game in
            let '(game, s) :=
              match Game.eliminationRiskTimers game !! playerId with
              | Some eliminationTimer =>
                  (Game.set_eliminationRiskTimers
                     (delete playerId (Game.eliminationRiskTimers game)) game,
                   clearTimeout eliminationTimer s)
              | None => (game, s)
              end in
            let s := store_game gameId game s in
            emit (player_disconnected gameId playerId (clock s)) s
        | None => s
        end in
      set_players (delete socketId (players s)) s
  end.

(** ** The event loop *)

(** What can happen next: one of the socket messages handled in
    [io.on('connection', ...)] (each handler passes the fields of the
    message to one method), a timeout firing, or time passing. *)
Inductive Event :=
| EvJoin (socketId gameId playerId playerName role ability : string)
| EvStartGame (gameId : string) (gameDuration : option Z)
| EvStartRisk (gameId playerId : string) (duration : option Z)
| EvStopRisk (gameId playerId : string)
| EvStartChase (gameId hunterId survivorId : string) (isGhostAbility : bool)
| EvStopChase (gameId hunterId survivorId : string)
| EvEliminate (gameId playerId : string) (reason : option string)
| EvEndGame (gameId reason : string)
| EvDisconnect (socketId : string)
| EvFire (h : handle)
| EvTick (dt : N).

#[global] Instance Event_eq_dec : EqDecision Event.
Proof. solve_decision. Defined.

(** The body of a timeout's closure. *)
Definition runCallback (cb : Callback) (s : Server) : Server :=
  match cb with
  | CbEndGame gameId reason => (endGame gameId reason s).2
  | CbEliminatePlayer gameId playerId reason =>
      (eliminatePlayer gameId playerId (Some reason) s).2
  | CbChaseTimeout gameId hunterId survivorId =>
      chaseTimeout gameId hunterId survivorId s
  | CbCleanupGame gameId => cleanupGame gameId s
  end.

(** Firing [h]: only an armed timeout fires; it leaves the table, then its
    callback runs.  When it fires is up to the runtime: Node measures the
    delay on the monotonic clock of its loop, not on [Date.now], replaces a
    delay below 1 or above 2^31-1 by 1, and on the [Date.now] clock a
    timeout is seen to run a millisecond before or any time after
    [armedAt + delay].  The model records the delay and the time of the call
    and lets an armed timeout fire at any turn. *)
Definition fire (h : handle) (s : Server) : option Server :=
  match pending s !! h with
  | Some t => Some (runCallback (callback t) (clearTimeout h s))
  | None => None
  end.

Definition tick (dt : N) (s : Server) : Server :=
  mkServer (games s) (players s) (pending s) (nextTimer s)
           (clock s + Z.of_N dt)%Z (emitted s).

(** One turn of the event loop; [None] when the event cannot happen in
    [s] (a timeout that is not armed). *)
Definition step (e : Event) (s : Server) : option Server :=
  match e with
  | EvJoin socketId gameId playerId playerName role ability =>
      let s := (joinGame socketId gameId playerId playerName role ability s).2 in
      Some (emit (player_joined gameId playerId playerName role ability
                    (clock s)) s)
  | EvStartGame gameId d => Some (startGameTimer gameId d s).2
  | EvStartRisk gameId playerId d =>
      Some (startEliminationRiskTimer gameId playerId d s).2
  | EvStopRisk gameId playerId =>
      Some (stopEliminationRiskTimer gameId playerId s).2
  | EvStartChase gameId hunterId survivorId ghost =>
      Some (startChaseCountdown gameId hunterId survivorId ghost s).2
  | EvStopChase gameId hunterId survivorId =>
      Some (stopChaseCountdown gameId hunterId survivorId s).2
  | EvEliminate gameId playerId reason =>
      Some (eliminatePlayer gameId playerId reason s).2
  | EvEndGame gameId reason => Some (endGame gameId reason s).2
  | EvDisconnect socketId => Some (disconnectPlayer socketId s)
  | EvFire h => fire h s
  | EvTick dt => Some (tick dt s)
  end.

(** A sequence of turns, first event first. *)
Fixpoint run (evs : list Event) (s : Server) : option Server :=
  match evs with
  | [] => Some s
  | e :: evs =>
      match step e s with
      | Some s' => run evs s'
      | None => None
      end
  end.

(** The states the server can be in: those some sequence of events leads
    to from a fresh process. *)
Definition reachable (s : Server) : Prop :=
  ∃ t0 evs, run evs (init t0) = Some s.

(** ** Vocabulary of the properties *)

(** The handles a timer map holds. *)
Definition handlesOf (timers : gmap string handle) : list handle :=
  (map_to_list timers).*2.

(** Disarming a list of handles in the table of armed timeouts. *)
Definition disarm (hs : list handle) (p : gmap handle Timer) : gmap handle Timer :=
  foldr delete p hs.

(** [p'] holds nothing that [p] did not hold, apart from handles [≥ n]. *)
Definition grown (n : handle) (p p' : gmap handle Timer) : Prop :=
  ∀ h t, p' !! h = Some t → p !! h = Some t ∨ n ≤ h.

(** [s'] comes after [s]: the counter of handles did not go back, and every
    timeout armed in [s'] was armed in [s] or has a handle that was still
    unused in [s]. *)
Definition extends (s s' : Server) : Prop :=
  nextTimer s ≤ nextTimer s' ∧ grown (nextTimer s) (pending s) (pending s').

(** [game.timers.eliminationRiskTimers.get(playerId)] of game [gameId]. *)
Definition riskTimerOf (s : Server) (gameId playerId : string) : option handle :=
  games s !! gameId ≫= λ game, Game.eliminationRiskTimers game !! playerId.

(** Between [s] and [s'] no handle was written under [(gameId, playerId)]. *)
Definition riskKept (gameId playerId : string) (s s' : Server) : Prop :=
  ∀ x, riskTimerOf s' gameId playerId = Some x →
       riskTimerOf s gameId playerId = Some x.

(** The event is a [start_elimination_risk] message for [(g, p)]. *)
Definition startsRisk (g p : string) (e : Event) : Prop :=
  match e with
  | EvStartRisk gameId playerId _ => gameId = g ∧ playerId = p
  | _ => False
  end.

#[global] Instance startsRisk_dec g p e : Decision (startsRisk g p e).
Proof. destruct e; cbn; apply _. Defined.

(** The duration [startEliminationRiskTimer] passes to [setTimeout] for a
    player of [game]. *)
Definition riskDuration (game : Game.t) (player : Player.t)
    (customDuration : option Z) : Z :=
  let base :=
    js_or customDuration (Settings.eliminationRiskDuration (Game.settings game)) in
  if decide (Player.ability player = "MERCENARY")
  then mercenaryDuration base (Settings.mercenaryMultiplier (Game.settings game))
  else base.

(** The events emitted on the way from [s] to [s']. *)
Definition emittedBy (s s' : Server) : list Emit :=
  drop (length (emitted s)) (emitted s').

(** No player of the map is a survivor whose status is not [eliminated]. *)
Definition noSurvivorLeft (players : gmap string Player.t) : Prop :=
  ∀ q pl, players !! q = Some pl →
          Player.role pl = "survivor" → Player.status pl = eliminated.

(** [h] is one of the handles [game.timers] holds. *)
Definition recorded (game : Game.t) (h : handle) : Prop :=
  Game.gameTimer game = Some h ∨
  (∃ p, Game.eliminationRiskTimers game !! p = Some h) ∨
  (∃ k, Game.chaseTimers game !! k = Some h).

(** Every handle a game holds was handed out by [setTimeout] before. *)
Definition handlesBelow (s : Server) : Prop :=
  ∀ g game h, games s !! g = Some game → recorded game h → h < nextTimer s.

(** A game in play with one timer of each kind: the game timer (handle 0),
    the elimination-risk timer of P1 (handle 1) and the chase timer of
    (H1, S1) (handle 2). *)
Definition busyEvents : list Event :=
  [EvJoin "sock1" "G" "P1" "Ann" "survivor" "NONE";
   EvStartGame "G" None;
   EvStartRisk "G" "P1" None;
   EvStartChase "G" "H1" "S1" false].

Definition busyState : Server := default (init 0) (run busyEvents (init 0)).

Definition busyGame : Game.t :=
  Game.mk "G"
    {["P1" := Player.mk "P1" "Ann" "survivor" "NONE" "sock1" elimination_risk
                0 None None]}
    playing (Settings.mk 600000 100000 5000 3 3000)
    (Some 0) {["P1" := 1]} {["H1_S1" := 2]} (Some 0%Z) (Some 600000%Z) 0 None None.

(** A run of C2: two survivors in a game in play; eliminating the first
    does not end the game. *)
Definition duelEvents : list Event :=
  [EvJoin "sock1" "G2" "P1" "Ann" "survivor" "NONE";
   EvJoin "sock2" "G2" "P2" "Bob" "survivor" "NONE";
   EvStartGame "G2" None;
   EvEliminate "G2" "P1" (Some "manual")].

Definition duelState : Server := default (init 0) (run duelEvents (init 0)).

Definition duelGame : Game.t :=
  Game.mk "G2"
    (<["P1" := Player.mk "P1" "Ann" "survivor" "NONE" "sock1" eliminated
                0 (Some 0%Z) (Some "manual")]>
       {["P2" := Player.mk "P2" "Bob" "survivor" "NONE" "sock2" alive
                   0 None None]})
    playing (Settings.mk 600000 100000 5000 3 3000)
    (Some 0) ∅ ∅ (Some 0%Z) (Some 600000%Z) 0 None None.

(** [game.status] of game [gameId], if the game exists. *)
Definition gameStatusOf (s : Server) (gameId : string) : option GameStatus :=
  Game.status <$> games s !! gameId.

(** From [s] to [s'] an ended game [g] stays there, ended. *)
Definition endedKept (g : string) (s s' : Server) : Prop :=
  gameStatusOf s g = Some ended → gameStatusOf s' g = Some ended.

(** The event is a [start_game] message for [g]. *)
Definition startsGame (g : string) (e : Event) : Prop :=
  match e with
  | EvStartGame gameId _ => gameId = g
  | _ => False
  end.

#[global] Instance startsGame_dec g e : Decision (startsGame g e).
Proof. destruct e; cbn; apply _. Defined.

(** The string has no underscore. *)
Fixpoint underscoreFree (x : string) : Prop :=
  match x with
  | EmptyString => True
  | String a x => a ≠ "_"%char ∧ underscoreFree x
  end.

(** The reasons a method of the state machine can fail for. *)
Inductive Failure := GameAbsent | PlayerAbsent | TimerNotRunning.

(** [game.players.get(playerId)] of game [gameId]. *)
Definition playerOf (s : Server) (gameId playerId : string) : option Player.t :=
  games s !! gameId ≫= λ game, Game.players game !! playerId.

(** [game.timers.chaseTimers.get(timerKey)] of game [gameId]. *)
Definition chaseTimerOf (s : Server) (gameId hunterId survivorId : string)
    : option handle :=
  games s !! gameId ≫= λ game,
    Game.chaseTimers game !! timerKey hunterId survivorId.

(** Why [startEliminationRiskTimer(g,p)] fails in [s], if it does. *)
Definition whyStartRiskFails (g p : string) (s : Server) : option Failure :=
  match games s !! g with
  | None => Some GameAbsent
  | Some game =>
      match Game.players game !! p with
      | None => Some PlayerAbsent
      | Some _ => None
      end
  end.

(** [(player.eliminatedAt, player.eliminationReason)] of player [playerId]
    of game [gameId]. *)
Definition eliminationRecordOf (s : Server) (gameId playerId : string)
    : option (option Z * option string) :=
  (λ pl, (Player.eliminatedAt pl, Player.eliminationReason pl))
    <$> playerOf s gameId playerId.

(** From [s] to [s'] the elimination record of [(g,p)] did not change. *)
Definition recordKept (g p : string) (s s' : Server) : Prop :=
  eliminationRecordOf s' g p = eliminationRecordOf s g p.

(** Every entry of [this.players] names a game that exists. *)
Definition bindingsHaveGames (s : Server) : Prop :=
  ∀ sock b, players s !! sock = Some b → is_Some (games s !! Binding.gameId b).

(** No game and no binding is lost or added from [s] to [s']; the games may
    have changed inside. *)
Definition sameDirectory (s s' : Server) : Prop :=
  players s' = players s ∧ ∀ g, is_Some (games s' !! g) ↔ is_Some (games s !! g).

(** The places of [game.timers] that hold a handle. *)
Inductive Slot :=
| GameSlot
| RiskSlot (playerId : string)
| ChaseSlot (timerKey : string).

Definition handleAt (game : Game.t) (sl : Slot) : option handle :=
  match sl with
  | GameSlot => Game.gameTimer game
  | RiskSlot p => Game.eliminationRiskTimers game !! p
  | ChaseSlot k => Game.chaseTimers game !! k
  end.

(** No handle is held by two slots, of one game or of two. *)
Definition uniqueHandles (s : Server) : Prop :=
  ∀ g1 game1 sl1 g2 game2 sl2 h,
    games s !! g1 = Some game1 → handleAt game1 sl1 = Some h →
    games s !! g2 = Some game2 → handleAt game2 sl2 = Some h →
    g1 = g2 ∧ sl1 = sl2.

(** Every handle a slot holds in [s'] was in the same slot in [s], except
    that the slot [fresh], if any, may hold the next fresh handle of [s]. *)
Definition slotsFrom (fresh : option (string * Slot)) (s s' : Server) : Prop :=
  ∀ g game' sl h,
    games s' !! g = Some game' → handleAt game' sl = Some h →
    (∃ game, games s !! g = Some game ∧ handleAt game sl = Some h) ∨
    (fresh = Some (g, sl) ∧ h = nextTimer s).

(** ** Further methods and vocabulary *)

(** The object [getServerStats] returns. *)
Record ServerStats := mkStats {
  totalGames : nat;
  totalPlayers : nat;
  activeGames : nat;
  waitingGames : nat }.

(** [Array.from(this.games.values()).filter(g => g.status === st).length] *)
Definition countStatus (st : GameStatus) (s : Server) : nat :=
  length (filter (λ g, Game.status g = st) (map_to_list (games s)).*2).

Definition getServerStats (s : Server) : ServerStats :=
  mkStats (size (games s)) (size (players s))
          (countStatus playing s) (countStatus waiting s).

(** The settings of a game created without supplied settings. *)
Definition plainSettings : Settings.t := Settings.mk 600000 100000 5000 3 3000.

(** What the chase methods have no business with: the players, the status,
    the settings, the game timer and the elimination-risk timers of a game. *)
Definition nonChasePart (game : Game.t) :=
  (Game.players game, Game.status game, Game.settings game,
   Game.gameTimer game, Game.eliminationRiskTimers game).

(** Every record sits under its own id, and every game has the settings of
    a game created without supplied settings. *)
Definition wellKeyed (s : Server) : Prop :=
  (∀ g game, games s !! g = Some game →
     Game.id game = g ∧ Game.settings game = plainSettings ∧
     ∀ p pl, Game.players game !! p = Some pl → Player.playerId pl = p) ∧
  (∀ sock b, players s !! sock = Some b → Binding.socketId b = sock).

(** Only players of the game have an elimination-risk timer. *)
Definition riskHasPlayer (s : Server) : Prop :=
  ∀ g game p h,
    games s !! g = Some game →
    Game.eliminationRiskTimers game !! p = Some h →
    is_Some (Game.players game !! p).

(** The callback a handle held by slot [sl] of game [g] must carry. *)
Definition slotCallback (g : string) (sl : Slot) (cb : Callback) : Prop :=
  match sl with
  | GameSlot => cb = CbEndGame g "timeout"
  | RiskSlot p => cb = CbEliminatePlayer g p "elimination_risk_timeout"
  | ChaseSlot k => ∃ hu v, k = timerKey hu v ∧ cb = CbChaseTimeout g hu v
  end.

(** Every handle a game holds is an armed timeout with the callback of its
    slot. *)
Definition armedTyped (s : Server) : Prop :=
  ∀ g game sl h,
    games s !! g = Some game → handleAt game sl = Some h →
    ∃ t, pending s !! h = Some t ∧ slotCallback g sl (callback t).

(** [h] is held by no slot that holds it in [s] and still does in [s']. *)
Definition released (h : handle) (s s' : Server) : Prop :=
  ∀ g game sl game',
    games s !! g = Some game → handleAt game sl = Some h →
    games s' !! g = Some game' → handleAt game' sl ≠ Some h.

(** From [s] to [s'] a timeout below the counter stays armed as it was
    unless a slot that held its handle gave it up. *)
Definition releasedOnly (s s' : Server) : Prop :=
  ∀ h t,
    pending s !! h = Some t → h < nextTimer s →
    pending s' !! h = Some t ∨
    ∃ g game sl,
      games s !! g = Some game ∧ handleAt game sl = Some h ∧
      ∀ game', games s' !! g = Some game' → handleAt game' sl ≠ Some h.

(** The slot [fresh], if any, holds the next fresh handle of [s], armed in
    [s'] with the callback of the slot. *)
Definition freshArmed (fresh : option (string * Slot)) (s s' : Server) : Prop :=
  ∀ g sl, fresh = Some (g, sl) →
    ∃ t, pending s' !! nextTimer s = Some t ∧ slotCallback g sl (callback t).

(** ** Basic facts about the runtime primitives *)

Lemma elem_of_handlesOf (timers : gmap string handle) (h : handle) :
  h ∈ handlesOf timers ↔ ∃ k, timers !! k = Some h.
Proof.
  unfold handlesOf. rewrite list_elem_of_fmap. split.
  - intros [[k x] [-> Hin]]. exists k. by apply elem_of_map_to_list.
  - intros [k Hk]. exists (k, h). split; [done|]. by apply elem_of_map_to_list.
Qed.

Lemma lookup_disarm (hs : list handle) (p : gmap handle Timer) (h : handle) :
  disarm hs p !! h = if decide (h ∈ hs) then None else p !! h.
Proof.
  induction hs as [|x hs IH].
  - destruct (decide (h ∈ [])) as [Hin|_]; [by apply elem_of_nil in Hin|done].
  - change (disarm (x :: hs) p) with (delete x (disarm hs p)).
    destruct (decide (x = h)) as [->|Hne].
    + rewrite lookup_delete_eq.
      destruct (decide (h ∈ h :: hs)) as [_|Hn]; [done|].
      exfalso. apply Hn. left.
    + rewrite lookup_delete_ne by done. rewrite IH.
      destruct (decide (h ∈ hs)) as [Hin|Hn], (decide (h ∈ x :: hs)) as [Hin'|Hn'];
        try done.
      * exfalso. apply Hn'. by right.
      * apply elem_of_cons in Hin' as [?|?]; congruence.
Qed.

Lemma clearEach_eq (timers : gmap string handle) (s : Server) :
  clearEach timers s =
  mkServer (games s) (players s) (disarm (handlesOf timers) (pending s))
           (nextTimer s) (clock s) (emitted s).
Proof.
  unfold clearEach, handlesOf.
  induction (map_to_list timers) as [|[k x] l IH]; simpl.
  - by destruct s.
  - rewrite IH. reflexivity.
Qed.

Lemma games_clearEach timers s : games (clearEach timers s) = games s.
Proof. by rewrite clearEach_eq. Qed.

Lemma players_clearEach timers s : players (clearEach timers s) = players s.
Proof. by rewrite clearEach_eq. Qed.

Lemma pending_clearEach timers s :
  pending (clearEach timers s) = disarm (handlesOf timers) (pending s).
Proof. by rewrite clearEach_eq. Qed.

Lemma nextTimer_clearEach timers s :
  nextTimer (clearEach timers s) = nextTimer s.
Proof. by rewrite clearEach_eq. Qed.

Lemma clock_clearEach timers s : clock (clearEach timers s) = clock s.
Proof. by rewrite clearEach_eq. Qed.

Lemma emitted_clearEach timers s : emitted (clearEach timers s) = emitted s.
Proof. by rewrite clearEach_eq. Qed.

Lemma games_clearIfSet o s : games (clearIfSet o s) = games s.
Proof. by destruct o. Qed.

Lemma players_clearIfSet o s : players (clearIfSet o s) = players s.
Proof. by destruct o. Qed.

Lemma pending_clearIfSet o s :
  pending (clearIfSet o s) = disarm (option_list o) (pending s).
Proof. by destruct o. Qed.

Lemma nextTimer_clearIfSet o s : nextTimer (clearIfSet o s) = nextTimer s.
Proof. by destruct o. Qed.

Lemma clock_clearIfSet o s : clock (clearIfSet o s) = clock s.
Proof. by destruct o. Qed.

Lemma emitted_clearIfSet o s : emitted (clearIfSet o s) = emitted s.
Proof. by destruct o. Qed.

Create Rewrite HintDb prims.

#[global] Hint Rewrite games_clearEach players_clearEach pending_clearEach
  nextTimer_clearEach clock_clearEach emitted_clearEach games_clearIfSet
  players_clearIfSet pending_clearIfSet nextTimer_clearIfSet clock_clearIfSet
  emitted_clearIfSet : prims.

(** ** Handles are fresh: a table of timeouts only grows by new handles *)

Lemma grown_refl n p : grown n p p.
Proof. intros h t; auto. Qed.

Lemma grown_delete n p p' x : grown n p p' → grown n p (delete x p').
Proof.
  intros Hg h t Hl. apply lookup_delete_Some in Hl as [_ Hl]. by apply Hg.
Qed.

Lemma grown_insert n p p' x v : n ≤ x → grown n p p' → grown n p (<[x:=v]> p').
Proof.
  intros Hx Hg h t Hl. apply lookup_insert_Some in Hl as [[<- _]|[_ Hl]].
  - by right.
  - by apply Hg.
Qed.

Lemma grown_disarm n p p' hs : grown n p p' → grown n p (disarm hs p').
Proof.
  intros Hg h t Hl. rewrite lookup_disarm in Hl. case_decide; [done|]. by apply Hg.
Qed.

Lemma extends_refl s : extends s s.
Proof. split; [lia|apply grown_refl]. Qed.

Lemma extends_trans s1 s2 s3 : extends s1 s2 → extends s2 s3 → extends s1 s3.
Proof.
  intros [Hn1 Hg1] [Hn2 Hg2]. split; [lia|].
  intros h t Hl. destruct (Hg2 h t Hl) as [Hl2|Hge]; [|right; lia].
  by apply Hg1.
Qed.

Create HintDb timers.

#[local] Hint Resolve grown_refl grown_delete grown_insert grown_disarm : timers.
#[local] Hint Resolve extends_refl : timers.

Section ExtendsPrimitives.
Context (s x : Server) (Hx : extends s x).

Lemma extends_arm cb d : extends s (arm cb d x).
Proof.
  destruct Hx as [Hn Hg]. split; cbn; [lia|].
  apply grown_insert; [lia|done].
Qed.

Lemma extends_clearTimeout h : extends s (clearTimeout h x).
Proof. destruct Hx as [Hn Hg]. split; cbn; [lia|]. by apply grown_delete. Qed.

Lemma extends_clearIfSet o : extends s (clearIfSet o x).
Proof. destruct o; cbn; [apply extends_clearTimeout|done]. Qed.

Lemma extends_clearEach timers : extends s (clearEach timers x).
Proof.
  rewrite clearEach_eq. destruct Hx as [Hn Hg]. split; cbn; [lia|].
  by apply grown_disarm.
Qed.

Lemma extends_emit e : extends s (emit e x).
Proof. exact Hx. Qed.

Lemma extends_store_game gameId g : extends s (store_game gameId g x).
Proof. exact Hx. Qed.

Lemma extends_set_games v : extends s (set_games v x).
Proof. exact Hx. Qed.

Lemma extends_set_players v : extends s (set_players v x).
Proof. exact Hx. Qed.

Lemma extends_tick dt : extends s (tick dt x).
Proof. exact Hx. Qed.

End ExtendsPrimitives.

#[local] Hint Resolve extends_arm extends_clearTimeout extends_clearIfSet
  extends_clearEach extends_emit extends_store_game extends_set_games
  extends_set_players extends_tick : timers.

(** Closes [extends s (op x).2] once [op] is unfolded. *)
Ltac extends_tac :=
  cbn; repeat (case_match; simplify_eq; cbn in *); auto 20 with timers.

Lemma extends_endGame s x gameId reason :
  extends s x → extends s (endGame gameId reason x).2.
Proof. intros Hx. unfold endGame. extends_tac. Qed.

#[local] Hint Resolve extends_endGame : timers.

Lemma extends_checkGameEndConditions s x gameId :
  extends s x → extends s (checkGameEndConditions gameId x).
Proof. intros Hx. unfold checkGameEndConditions. extends_tac. Qed.

#[local] Hint Resolve extends_checkGameEndConditions : timers.

Lemma extends_eliminatePlayer s x gameId playerId reason :
  extends s x → extends s (eliminatePlayer gameId playerId reason x).2.
Proof. intros Hx. unfold eliminatePlayer. extends_tac. Qed.

Lemma extends_chaseTimeout s x gameId hunterId survivorId :
  extends s x → extends s (chaseTimeout gameId hunterId survivorId x).
Proof. intros Hx. unfold chaseTimeout. extends_tac. Qed.

Lemma extends_cleanupGame s x gameId :
  extends s x → extends s (cleanupGame gameId x).
Proof. intros Hx. unfold cleanupGame. extends_tac. Qed.

#[local] Hint Resolve extends_eliminatePlayer extends_chaseTimeout
  extends_cleanupGame : timers.

Lemma extends_runCallback s x cb : extends s x → extends s (runCallback cb x).
Proof. intros Hx. destruct cb; cbn; auto with timers. Qed.

Lemma extends_joinGame s x socketId gameId playerId playerName role ability :
  extends s x →
  extends s (joinGame socketId gameId playerId playerName role ability x).2.
Proof. intros Hx. unfold joinGame, getOrCreateGame. extends_tac. Qed.

Lemma extends_startGameTimer s x gameId d :
  extends s x → extends s (startGameTimer gameId d x).2.
Proof. intros Hx. unfold startGameTimer. extends_tac. Qed.

Lemma extends_startEliminationRiskTimer s x gameId playerId d :
  extends s x → extends s (startEliminationRiskTimer gameId playerId d x).2.
Proof. intros Hx. unfold startEliminationRiskTimer. extends_tac. Qed.

Lemma extends_stopEliminationRiskTimer s x gameId playerId :
  extends s x → extends s (stopEliminationRiskTimer gameId playerId x).2.
Proof. intros Hx. unfold stopEliminationRiskTimer. extends_tac. Qed.

Lemma extends_startChaseCountdown s x gameId hunterId survivorId ghost :
  extends s x →
  extends s (startChaseCountdown gameId hunterId survivorId ghost x).2.
Proof. intros Hx. unfold startChaseCountdown. extends_tac. Qed.

Lemma extends_stopChaseCountdown s x gameId hunterId survivorId :
  extends s x → extends s (stopChaseCountdown gameId hunterId survivorId x).2.
Proof. intros Hx. unfold stopChaseCountdown. extends_tac. Qed.

Lemma extends_disconnectPlayer s x socketId :
  extends s x → extends s (disconnectPlayer socketId x).
Proof. intros Hx. unfold disconnectPlayer. extends_tac. Qed.

#[local] Hint Resolve extends_runCallback extends_joinGame
  extends_startGameTimer extends_startEliminationRiskTimer
  extends_stopEliminationRiskTimer extends_startChaseCountdown
  extends_stopChaseCountdown extends_disconnectPlayer : timers.

Lemma extends_step e s s' : step e s = Some s' → extends s s'.
Proof.
  destruct e; cbn; intros Hs; simplify_eq; auto with timers.
  unfold fire in Hs. repeat case_match; simplify_eq. auto with timers.
Qed.

Lemma extends_run evs s s' : run evs s = Some s' → extends s s'.
Proof.
  revert s. induction evs as [|e evs IH]; intros s Hr; cbn in Hr.
  - simplify_eq. apply extends_refl.
  - destruct (step e s) as [s1|] eqn:Hs; [|done].
    eapply extends_trans; [by eapply extends_step|by apply IH].
Qed.

(** A handle that is no longer armed and below the counter never fires
    again. *)
Lemma disarmed_never_fires h evs s s' :
  pending s !! h = None → h < nextTimer s →
  run evs s = Some s' → EvFire h ∉ evs.
Proof.
  revert s. induction evs as [|e evs IH]; intros s Hp Hlt Hr; cbn in Hr.
  - apply not_elem_of_nil.
  - destruct (step e s) as [s1|] eqn:Hs; [|done].
    apply not_elem_of_cons. split.
    + intros <-. unfold step, fire in Hs. by rewrite Hp in Hs.
    + apply extends_step in Hs as Hext. destruct Hext as [Hn Hg].
      apply (IH s1); [|lia|done].
      destruct (pending s1 !! h) as [t|] eqn:Hl; [|done].
      destruct (Hg h t Hl) as [?|?]; [congruence|lia].
Qed.

(** ** Where an elimination-risk handle can come from *)

Lemma riskKept_refl g p s : riskKept g p s s.
Proof. by intros x. Qed.

Lemma riskKept_trans g p s1 s2 s3 :
  riskKept g p s1 s2 → riskKept g p s2 s3 → riskKept g p s1 s3.
Proof. intros H1 H2 x Hx. by apply H1, H2. Qed.

Ltac riskKept_tac :=
  cbn; repeat (case_match; simplify_eq; cbn in * );
  try apply riskKept_refl;
  intros ?; unfold riskTimerOf; cbn; autorewrite with prims; cbn;
  repeat match goal with
  | |- context [<[?a := _]> _ !! ?b] =>
      destruct (decide (a = b)); simplify_map_eq
  | |- context [delete ?a _ !! ?b] =>
      destruct (decide (a = b)); simplify_map_eq
  end; try done.

Lemma riskKept_endGame g p gameId reason s :
  riskKept g p s (endGame gameId reason s).2.
Proof. unfold endGame. riskKept_tac. Qed.

Lemma riskKept_checkGameEndConditions g p gameId s :
  riskKept g p s (checkGameEndConditions gameId s).
Proof.
  unfold checkGameEndConditions.
  repeat case_match; try apply riskKept_refl. apply riskKept_endGame.
Qed.

Lemma riskKept_eliminatePlayer g p gameId playerId reason s :
  riskKept g p s (eliminatePlayer gameId playerId reason s).2.
Proof.
  unfold eliminatePlayer.
  cbn; repeat (case_match; simplify_eq; cbn in * ); try apply riskKept_refl;
    (eapply riskKept_trans; [|apply riskKept_checkGameEndConditions]);
    riskKept_tac.
Qed.

Lemma riskKept_chaseTimeout g p gameId hunterId survivorId s :
  riskKept g p s (chaseTimeout gameId hunterId survivorId s).
Proof. unfold chaseTimeout. riskKept_tac. Qed.

Lemma riskKept_cleanupGame g p gameId s : riskKept g p s (cleanupGame gameId s).
Proof. unfold cleanupGame. riskKept_tac. Qed.

Lemma riskKept_runCallback g p cb s : riskKept g p s (runCallback cb s).
Proof.
  destruct cb; cbn;
    auto using riskKept_endGame, riskKept_eliminatePlayer,
      riskKept_chaseTimeout, riskKept_cleanupGame.
Qed.

Lemma riskKept_joinGame g p socketId gameId playerId playerName role ability s :
  riskKept g p s
    (joinGame socketId gameId playerId playerName role ability s).2.
Proof. unfold joinGame, getOrCreateGame. riskKept_tac. Qed.

Lemma riskKept_startGameTimer g p gameId d s :
  riskKept g p s (startGameTimer gameId d s).2.
Proof. unfold startGameTimer. riskKept_tac. Qed.

Lemma riskKept_startEliminationRiskTimer g p gameId playerId d s :
  (gameId, playerId) ≠ (g, p) →
  riskKept g p s (startEliminationRiskTimer gameId playerId d s).2.
Proof. intros Hne. unfold startEliminationRiskTimer. riskKept_tac. Qed.

Lemma riskKept_stopEliminationRiskTimer g p gameId playerId s :
  riskKept g p s (stopEliminationRiskTimer gameId playerId s).2.
Proof. unfold stopEliminationRiskTimer. riskKept_tac. Qed.

Lemma riskKept_startChaseCountdown g p gameId hunterId survivorId ghost s :
  riskKept g p s (startChaseCountdown gameId hunterId survivorId ghost s).2.
Proof. unfold startChaseCountdown. riskKept_tac. Qed.

Lemma riskKept_stopChaseCountdown g p gameId hunterId survivorId s :
  riskKept g p s (stopChaseCountdown gameId hunterId survivorId s).2.
Proof. unfold stopChaseCountdown. riskKept_tac. Qed.

Lemma riskKept_disconnectPlayer g p socketId s :
  riskKept g p s (disconnectPlayer socketId s).
Proof. unfold disconnectPlayer. riskKept_tac. Qed.

Lemma riskKept_step g p e s s' :
  ¬ startsRisk g p e → step e s = Some s' → riskKept g p s s'.
Proof.
  intros Hne. destruct e; unfold step; intros Hs; simplify_eq;
    auto using riskKept_refl, riskKept_startGameTimer,
      riskKept_stopEliminationRiskTimer, riskKept_startChaseCountdown,
      riskKept_stopChaseCountdown, riskKept_eliminatePlayer, riskKept_endGame,
      riskKept_disconnectPlayer.
  - intros x Hx. exact (riskKept_joinGame _ _ _ _ _ _ _ _ _ _ Hx).
  - apply riskKept_startEliminationRiskTimer. cbn in Hne. naive_solver.
  - unfold fire in Hs. repeat case_match; simplify_eq.
    intros x Hx. exact (riskKept_runCallback _ _ _ _ _ Hx).
  - by intros x.
Qed.

Lemma riskKept_run g p evs s s' :
  Forall (λ e, ¬ startsRisk g p e) evs → run evs s = Some s' →
  riskKept g p s s'.
Proof.
  revert s. induction evs as [|e evs IH]; intros s Hall Hr; cbn in Hr.
  - simplify_eq. apply riskKept_refl.
  - destruct (step e s) as [s1|] eqn:Hs; [|done].
    apply Forall_cons in Hall as [He Hall].
    eapply riskKept_trans; [by eapply riskKept_step|by apply IH].
Qed.

(** ** Elimination-risk timers: start, stop, and what stop cancels *)

Lemma startEliminationRiskTimer_true g p d s s1 :
  startEliminationRiskTimer g p d s = (true, s1) →
  ∃ game player,
    games s !! g = Some game ∧ Game.players game !! p = Some player ∧
    riskTimerOf s1 g p = Some (nextTimer s) ∧
    nextTimer s1 = S (nextTimer s) ∧
    pending s1 !! nextTimer s =
      Some (mkTimer (riskDuration game player d) (clock s)
              (CbEliminatePlayer g p "elimination_risk_timeout")).
Proof.
  unfold startEliminationRiskTimer, riskDuration. intros Hs.
  destruct (games s !! g) as [game|] eqn:Hg; [|done].
  destruct (Game.players game !! p) as [player|] eqn:Hp; [|done].
  exists game, player. cbn in Hs. simplify_eq. unfold riskTimerOf. cbn.
  autorewrite with prims. rewrite !lookup_insert_eq. cbn.
  by rewrite lookup_insert_eq.
Qed.

Lemma stopEliminationRiskTimer_true g p s s' :
  stopEliminationRiskTimer g p s = (true, s') →
  ∃ h, riskTimerOf s g p = Some h ∧
       pending s' = delete h (pending s) ∧ nextTimer s' = nextTimer s ∧
       riskTimerOf s' g p = None.
Proof.
  unfold stopEliminationRiskTimer, riskTimerOf. intros Hs.
  destruct (games s !! g) as [game|] eqn:Hg; [|done]. cbn.
  destruct (Game.eliminationRiskTimers game !! p) as [h|] eqn:Hh; [|done].
  exists h. cbn in Hs. simplify_eq. cbn. rewrite lookup_insert_eq. cbn.
  repeat split. destruct (Game.players game !! p); cbn; apply lookup_delete_eq.
Qed.

(** C1. Let [startEliminationRiskTimer(g,p,d)] succeed and arm the handle
    [h] (the next fresh one), let any events follow that do not start the
    timer of [(g,p)] again, and let [stopEliminationRiskTimer(g,p)] then
    return [true].  Then [h] carried the callback
    [eliminatePlayer(g,p,'elimination_risk_timeout')], [h] is disarmed when
    the stop returns, and in every later execution of the server [h] never
    fires: the callback armed by the preceding start never runs. *)
Theorem cancelled_risk_timer_never_fires
    (g p : string) (d : option Z) (s s1 s2 s3 s4 : Server)
    (between later : list Event) :
  startEliminationRiskTimer g p d s = (true, s1) →
  run between s1 = Some s2 →
  Forall (λ e, ¬ startsRisk g p e) between →
  stopEliminationRiskTimer g p s2 = (true, s3) →
  run later s3 = Some s4 →
  callback <$> pending s1 !! nextTimer s =
    Some (CbEliminatePlayer g p "elimination_risk_timeout") ∧
  pending s3 !! nextTimer s = None ∧
  EvFire (nextTimer s) ∉ later.
Proof.
  intros Hstart Hmid Hno Hstop Hlater.
  apply startEliminationRiskTimer_true in Hstart
    as (game & player & _ & _ & Hrisk1 & Hn1 & Hp1).
  apply stopEliminationRiskTimer_true in Hstop as (h & Hrisk2 & Hp3 & Hn3 & _).
  pose proof (riskKept_run g p between s1 s2 Hno Hmid h Hrisk2) as Hh.
  rewrite Hrisk1 in Hh. injection Hh as <-.
  assert (Hgone : pending s3 !! nextTimer s = None)
    by (rewrite Hp3; apply lookup_delete_eq).
  split; [by rewrite Hp1|]. split; [done|].
  apply (disarmed_never_fires _ later s3 s4); [done| |done].
  apply extends_run in Hmid as [Hle _]. lia.
Qed.

(** A run of C1: P1 joins G, the risk timer is started (handle 0), the game
    timer is started meanwhile, the risk timer is stopped; later events
    cannot contain the firing of handle 0. *)
Lemma cancelled_risk_timer_never_fires_witness :
  let s := (joinGame "sock1" "G" "P1" "Ann" "survivor" "NONE" (init 0)).2 in
  let s1 := (startEliminationRiskTimer "G" "P1" (Some 200%Z) s).2 in
  let s2 := (startGameTimer "G" None s1).2 in
  let s3 := (stopEliminationRiskTimer "G" "P1" s2).2 in
  callback <$> pending s1 !! 0 =
    Some (CbEliminatePlayer "G" "P1" "elimination_risk_timeout") ∧
  pending s3 !! 0 = None ∧
  EvFire 0 ∉ [EvTick 600000; EvFire 1; EvStartRisk "G" "P1" None].
Proof.
  intros s s1 s2 s3.
  apply (cancelled_risk_timer_never_fires "G" "P1" (Some 200%Z) s s1 s2 s3
           (default s3 (run [EvTick 600000; EvFire 1; EvStartRisk "G" "P1" None] s3))
           [EvStartGame "G" None]
           [EvTick 600000; EvFire 1; EvStartRisk "G" "P1" None]).
  - vm_compute. reflexivity.
  - vm_compute. reflexivity.
  - repeat constructor. simpl. intros [].
  - vm_compute. reflexivity.
  - vm_compute. reflexivity.
Defined.

(** ** The end condition evaluated by [eliminatePlayer] *)

Lemma aliveSurvivors_nil game :
  length (aliveSurvivors game) = 0 ↔ noSurvivorLeft (Game.players game).
Proof.
  unfold aliveSurvivors, noSurvivorLeft. rewrite length_zero_iff_nil. split.
  - intros Hnil q pl Hq Hrole.
    destruct (decide (Player.status pl = eliminated)) as [|Hne]; [done|].
    exfalso. eapply (filter_nil_not_elem_of _ _ pl Hnil); [by split|].
    apply list_elem_of_fmap. exists (q, pl). split; [done|].
    by apply elem_of_map_to_list.
  - intros Hno.
    destruct (filter aliveSurvivor (map_to_list (Game.players game)).*2)
      as [|pl l] eqn:Hf; [done|]. exfalso.
    assert (Hin : pl ∈ filter aliveSurvivor (map_to_list (Game.players game)).*2)
      by (rewrite Hf; left).
    apply list_elem_of_filter in Hin as [[Hrole Hst] Hin].
    apply list_elem_of_fmap in Hin as [[q pl'] [-> Hin]].
    apply elem_of_map_to_list in Hin. apply Hst. by eapply Hno.
Qed.

Lemma endGame_emitted g reason s game :
  games s !! g = Some game →
  emitted (endGame g reason s).2 =
    emitted s ++ [game_ended g reason (clock s) (clock s)].
Proof.
  intros Hg. unfold endGame. rewrite Hg.
  cbn. destruct (Game.gameTimer game); cbn; by autorewrite with prims.
Qed.

Lemma endGame_games g reason s game :
  games s !! g = Some game →
  games (endGame g reason s).2 =
    <[g := Game.set_chaseTimers ∅ (Game.set_eliminationRiskTimers ∅
             (Game.set_gameTimer None (Game.set_endReason reason
                (Game.set_endedAt (clock s) (Game.set_status ended game)))))]>
      (games s).
Proof.
  intros Hg. unfold endGame. rewrite Hg.
  cbn. destruct (Game.gameTimer game) eqn:Ht; cbn; autorewrite with prims;
    [done|].
  do 2 f_equal. destruct game; cbn in *. by subst.
Qed.

(** What [checkGameEndConditions] does when the game exists. *)
Lemma checkGameEndConditions_effect g s game :
  games s !! g = Some game →
  ∃ game' extra,
    games (checkGameEndConditions g s) !! g = Some game' ∧
    Game.players game' = Game.players game ∧
    emitted (checkGameEndConditions g s) = emitted s ++ extra ∧
    (game_ended g "all_survivors_eliminated" (clock s) (clock s) ∈ extra
     ↔ Game.status game = playing ∧ noSurvivorLeft (Game.players game)).
Proof.
  intros Hg. unfold checkGameEndConditions. rewrite Hg.
  setoid_rewrite <- aliveSurvivors_nil.
  destruct (decide (Game.status game ≠ playing)) as [Hnp|Hpl].
  { exists game, []. rewrite app_nil_r. do 3 (split; [done|]).
    split; [by intros ?%elem_of_nil|tauto]. }
  destruct (decide (length (aliveSurvivors game) = 0)) as [Hz|Hnz].
  - eexists _, _. rewrite (endGame_games _ _ _ _ Hg), lookup_insert_eq.
    split; [done|]. split; [done|].
    rewrite (endGame_emitted _ _ _ _ Hg). split; [done|].
    split; [intros _|intros _; left].
    split; [|done]. by destruct (decide (Game.status game = playing)).
  - exists game, []. rewrite app_nil_r. do 3 (split; [done|]).
    split; [by intros ?%elem_of_nil|tauto].
Qed.

(** What a successful [eliminatePlayer] does to the players of the game and
    to the stream of events. *)
Lemma eliminatePlayer_effect g p reason s game player :
  games s !! g = Some game →
  Game.players game !! p = Some player →
  ∃ s' game' extra,
    eliminatePlayer g p reason s = (true, s') ∧
    games s' !! g = Some game' ∧
    Game.players game' =
      <[p := Player.set_eliminationReason (default "unknown" reason)
               (Player.set_eliminatedAt (clock s)
                  (Player.set_status eliminated player))]>
        (Game.players game) ∧
    emitted s' =
      emitted s ++
      player_eliminated g p (default "unknown" reason) (clock s) (clock s)
        :: extra ∧
    (game_ended g "all_survivors_eliminated" (clock s) (clock s) ∈ extra
     ↔ Game.status game = playing ∧ noSurvivorLeft (Game.players game')).
Proof.
  intros Hg Hp. unfold eliminatePlayer. rewrite Hg, Hp.
  destruct (Game.eliminationRiskTimers game !! p) as [h|] eqn:Hh; cbn.
  all: match goal with
       | |- context [checkGameEndConditions _ ?m] => set (mid := m)
       end.
  all: edestruct (checkGameEndConditions_effect g mid)
         as (game' & extra & Hg' & Hpl & Hem & Hiff);
    [subst mid; cbn; apply lookup_insert_eq|].
  all: exists (checkGameEndConditions g mid), game', extra.
  all: split; [done|]. all: split; [done|].
  all: rewrite Hpl; split; [done|].
  all: rewrite Hem; subst mid; cbn; rewrite <- app_assoc; split; [done|].
  all: exact Hiff.
Qed.

(** C2. When game [g] and its player [p] exist, [eliminatePlayer(g,p,reason)]
    returns [true], leaves [p] with status [eliminated], and emits
    [game_ended] with reason [all_survivors_eliminated] (what the call of
    [endGame(g,'all_survivors_eliminated')] does) if and only if the status
    of [g] is [playing] and, in the players of [g] after [p] was marked, no
    player has role [survivor] and a status other than [eliminated]. *)
Theorem eliminatePlayer_ends_game_iff
    (g p : string) (reason : option string) (s : Server)
    (game : Game.t) (player : Player.t) :
  games s !! g = Some game →
  Game.players game !! p = Some player →
  ∃ s' game',
    eliminatePlayer g p reason s = (true, s') ∧
    games s' !! g = Some game' ∧
    Player.status <$> Game.players game' !! p = Some eliminated ∧
    (game_ended g "all_survivors_eliminated" (clock s) (clock s)
       ∈ emittedBy s s'
     ↔ Game.status game = playing ∧ noSurvivorLeft (Game.players game')).
Proof.
  intros Hg Hp.
  destruct (eliminatePlayer_effect g p reason s game player Hg Hp)
    as (s' & game' & extra & Hel & Hg' & Hpl & Hem & Hiff).
  exists s', game'. do 2 (split; [done|]). split.
  - by rewrite Hpl, lookup_insert_eq.
  - etrans; [|exact Hiff]. unfold emittedBy.
    rewrite Hem, drop_app_length, elem_of_cons.
    split; [by intros [?|?]|by right].
Qed.

(** ** Recorded handles are below the counter of handles *)

Lemma recorded_lookup_insert (m : gmap string handle) k x h :
  (∃ p, <[k:=x]> m !! p = Some h) → h = x ∨ ∃ p, m !! p = Some h.
Proof.
  intros [p Hp]. apply lookup_insert_Some in Hp as [[_ <-]|[_ Hp]]; eauto.
Qed.

Lemma recorded_lookup_delete (m : gmap string handle) k h :
  (∃ p, delete k m !! p = Some h) → ∃ p, m !! p = Some h.
Proof. intros [p Hp]. apply lookup_delete_Some in Hp as [_ Hp]; eauto. Qed.

Lemma recorded_lookup_empty h :
  (∃ p : string, (∅ : gmap string handle) !! p = Some h) → False.
Proof. intros [p Hp]. by rewrite lookup_empty in Hp. Qed.

Ltac handlesBelow_tac :=
  cbn; repeat (case_match; simplify_eq; cbn in * ); try done;
  unfold handlesBelow in *; cbn; autorewrite with prims; cbn;
  intros ? ? ? Hlook Hrec;
  repeat match type of Hlook with
  | <[?a := _]> _ !! ?b = _ =>
      destruct (decide (a = b)); simplify_map_eq
  | delete ?a _ !! ?b = _ =>
      destruct (decide (a = b)); simplify_map_eq
  end;
  unfold recorded in *; cbn in *;
  repeat match goal with
  | H : _ ∨ _ |- _ => destruct H
  | H : ∃ p, <[_:=_]> _ !! p = Some _ |- _ =>
      apply recorded_lookup_insert in H
  | H : ∃ p, delete _ _ !! p = Some _ |- _ =>
      apply recorded_lookup_delete in H
  | H : ∃ p, ∅ !! p = Some _ |- _ => destruct (recorded_lookup_empty _ H)
  end; simplify_eq; try lia;
  try match goal with
  | Hb : ∀ g game h, games _ !! g = Some game → _ → h < _,
    Hg : games _ !! _ = Some _ |- _ =>
      first [ apply (Nat.lt_lt_succ_r _ _); eapply (Hb _ _ _ Hg); eauto 6
            | eapply (Hb _ _ _ Hg); eauto 6 ]
  end.

Lemma handlesBelow_startEliminationRiskTimer g p d s :
  handlesBelow s → handlesBelow (startEliminationRiskTimer g p d s).2.
Proof. intros Hb. unfold startEliminationRiskTimer. handlesBelow_tac. Qed.

Lemma handlesBelow_endGame g reason s :
  handlesBelow s → handlesBelow (endGame g reason s).2.
Proof. intros Hb. unfold endGame. handlesBelow_tac. Qed.

Lemma handlesBelow_checkGameEndConditions g s :
  handlesBelow s → handlesBelow (checkGameEndConditions g s).
Proof.
  intros Hb. unfold checkGameEndConditions.
  repeat case_match; try done. by apply handlesBelow_endGame.
Qed.

Lemma handlesBelow_eliminatePlayer g p reason s :
  handlesBelow s → handlesBelow (eliminatePlayer g p reason s).2.
Proof.
  intros Hb. unfold eliminatePlayer.
  cbn; repeat (case_match; simplify_eq; cbn in * ); try done;
    apply handlesBelow_checkGameEndConditions; handlesBelow_tac.
Qed.

Lemma handlesBelow_chaseTimeout g hunterId survivorId s :
  handlesBelow s → handlesBelow (chaseTimeout g hunterId survivorId s).
Proof. intros Hb. unfold chaseTimeout. handlesBelow_tac. Qed.

Lemma handlesBelow_cleanupGame g s :
  handlesBelow s → handlesBelow (cleanupGame g s).
Proof. intros Hb. unfold cleanupGame. handlesBelow_tac. Qed.

Lemma handlesBelow_clearTimeout h s :
  handlesBelow s → handlesBelow (clearTimeout h s).
Proof. done. Qed.

Lemma handlesBelow_runCallback cb s :
  handlesBelow s → handlesBelow (runCallback cb s).
Proof.
  intros Hb. destruct cb; cbn;
    auto using handlesBelow_endGame, handlesBelow_eliminatePlayer,
      handlesBelow_chaseTimeout, handlesBelow_cleanupGame.
Qed.

Lemma handlesBelow_joinGame socketId g playerId playerName role ability s :
  handlesBelow s →
  handlesBelow (joinGame socketId g playerId playerName role ability s).2.
Proof. intros Hb. unfold joinGame, getOrCreateGame. handlesBelow_tac. Qed.

Lemma handlesBelow_startGameTimer g d s :
  handlesBelow s → handlesBelow (startGameTimer g d s).2.
Proof. intros Hb. unfold startGameTimer. handlesBelow_tac. Qed.

Lemma handlesBelow_stopEliminationRiskTimer g p s :
  handlesBelow s → handlesBelow (stopEliminationRiskTimer g p s).2.
Proof. intros Hb. unfold stopEliminationRiskTimer. handlesBelow_tac. Qed.

Lemma handlesBelow_startChaseCountdown g hunterId survivorId ghost s :
  handlesBelow s →
  handlesBelow (startChaseCountdown g hunterId survivorId ghost s).2.
Proof. intros Hb. unfold startChaseCountdown. handlesBelow_tac. Qed.

Lemma handlesBelow_stopChaseCountdown g hunterId survivorId s :
  handlesBelow s → handlesBelow (stopChaseCountdown g hunterId survivorId s).2.
Proof. intros Hb. unfold stopChaseCountdown. handlesBelow_tac. Qed.

Lemma handlesBelow_disconnectPlayer socketId s :
  handlesBelow s → handlesBelow (disconnectPlayer socketId s).
Proof. intros Hb. unfold disconnectPlayer. handlesBelow_tac. Qed.

Lemma handlesBelow_step e s s' :
  handlesBelow s → step e s = Some s' → handlesBelow s'.
Proof.
  intros Hb. destruct e; unfold step; intros Hs; simplify_eq;
    auto using handlesBelow_startGameTimer,
      handlesBelow_startEliminationRiskTimer,
      handlesBelow_stopEliminationRiskTimer, handlesBelow_startChaseCountdown,
      handlesBelow_stopChaseCountdown, handlesBelow_eliminatePlayer,
      handlesBelow_endGame, handlesBelow_disconnectPlayer.
  - by apply (handlesBelow_joinGame socketId gameId playerId playerName role
                ability) in Hb.
  - unfold fire in Hs. repeat case_match; simplify_eq.
    by apply handlesBelow_runCallback, handlesBelow_clearTimeout.
Qed.

Lemma handlesBelow_run evs s s' :
  handlesBelow s → run evs s = Some s' → handlesBelow s'.
Proof.
  revert s. induction evs as [|e evs IH]; intros s Hb Hr; cbn in Hr.
  - by simplify_eq.
  - destruct (step e s) as [s1|] eqn:Hs; [|done].
    apply (IH s1); [|done]. by eapply handlesBelow_step.
Qed.

Lemma handlesBelow_reachable s : reachable s → handlesBelow s.
Proof.
  intros (t0 & evs & Hr). eapply handlesBelow_run; [|exact Hr].
  intros g game h Hg. cbn in Hg. by rewrite lookup_empty in Hg.
Qed.

(** ** What [endGame] cancels *)

Lemma endGame_true g reason s game :
  games s !! g = Some game →
  ∃ s' game',
    endGame g reason s = (true, s') ∧
    games s' !! g = Some game' ∧
    Game.status game' = ended ∧
    Game.gameTimer game' = None ∧
    Game.eliminationRiskTimers game' = ∅ ∧
    Game.chaseTimers game' = ∅ ∧
    nextTimer s' = S (nextTimer s) ∧
    pending s' =
      <[nextTimer s := mkTimer 300000 (clock s) (CbCleanupGame g)]>
        (disarm (handlesOf (Game.chaseTimers game))
           (disarm (handlesOf (Game.eliminationRiskTimers game))
              (disarm (option_list (Game.gameTimer game)) (pending s)))).
Proof.
  intros Hg. unfold endGame. rewrite Hg. cbn.
  destruct (Game.gameTimer game) as [h|] eqn:Ht; cbn;
    eexists _, _; (split; [reflexivity|]); cbn; autorewrite with prims;
    rewrite lookup_insert_eq; done.
Qed.

(** What [endGame] does cancel.  In a reachable state, [endGame] on an
    existing game returns [true] and leaves [game.timers] empty: no game
    timer, no elimination-risk timer, no chase timer.  Every handle these
    three collections held when [endGame] was called is disarmed when it
    returns, and never fires in any later execution. *)
Theorem endGame_cancels_recorded_timers
    (s : Server) (g reason : string) (game : Game.t) :
  reachable s →
  games s !! g = Some game →
  ∃ s' game',
    endGame g reason s = (true, s') ∧
    games s' !! g = Some game' ∧
    Game.gameTimer game' = None ∧
    Game.eliminationRiskTimers game' = ∅ ∧
    Game.chaseTimers game' = ∅ ∧
    ∀ h, recorded game h →
         pending s' !! h = None ∧
         ∀ later s'', run later s' = Some s'' → EvFire h ∉ later.
Proof.
  intros Hreach Hg.
  destruct (endGame_true g reason s game Hg)
    as (s' & game' & He & Hg' & _ & Ht & Hr & Hc & Hn & Hp).
  exists s', game'. do 5 (split; [done|]).
  intros h Hrec.
  pose proof (handlesBelow_reachable s Hreach g game h Hg Hrec) as Hlt.
  assert (Hgone : pending s' !! h = None).
  { rewrite Hp, lookup_insert_ne by lia. rewrite !lookup_disarm.
    destruct Hrec as [Hgt|[[p Hrisk]|[k Hchase]]].
    - rewrite Hgt. cbn. repeat case_decide; try done. set_solver.
    - assert (h ∈ handlesOf (Game.eliminationRiskTimers game))
        by (apply elem_of_handlesOf; eauto).
      repeat case_decide; done.
    - assert (h ∈ handlesOf (Game.chaseTimers game))
        by (apply elem_of_handlesOf; eauto).
      repeat case_decide; done. }
  split; [done|]. intros later s'' Hrun.
  apply (disarmed_never_fires h later s' s''); [done|lia|done].
Qed.

Lemma busyState_reachable : reachable busyState.
Proof. exists 0%Z, busyEvents. vm_compute. reflexivity. Qed.

Lemma busyState_game : games busyState !! "G" = Some busyGame.
Proof. vm_compute. reflexivity. Qed.

Lemma endGame_cancels_recorded_timers_witness :
  ∃ s' game',
    endGame "G" "manual" busyState = (true, s') ∧
    games s' !! "G" = Some game' ∧
    Game.gameTimer game' = None ∧
    Game.eliminationRiskTimers game' = ∅ ∧
    Game.chaseTimers game' = ∅ ∧
    ∀ h, recorded busyGame h →
         pending s' !! h = None ∧
         ∀ later s'', run later s' = Some s'' → EvFire h ∉ later.
Proof.
  apply (endGame_cancels_recorded_timers busyState "G" "manual" busyGame).
  - exists 0%Z, busyEvents. vm_compute. reflexivity.
  - vm_compute. reflexivity.
Defined.

(** The cleanup timeout is not among them: [endGame] arms it and keeps no
    handle.  A second [endGame] on the same game leaves the cleanup timeout
    of the first armed, and it removes the game when it fires. *)
Lemma endGame_leaves_cleanup_timer_armed :
  ∃ s0 s1 s2,
    run [EvJoin "sock1" "G" "P1" "Ann" "survivor" "NONE"; EvEndGame "G" "first"]
        (init 0) = Some s0 ∧
    pending s0 !! 0 = Some (mkTimer 300000 0 (CbCleanupGame "G")) ∧
    endGame "G" "second" s0 = (true, s1) ∧
    run [EvTick 300000; EvFire 0] s1 = Some s2 ∧
    games s1 !! "G" ≠ None ∧ games s2 !! "G" = None.
Proof.
  eexists _, _, _. split; [vm_compute; reflexivity|].
  split; [vm_compute; reflexivity|].
  split; [vm_compute; reflexivity|].
  split; [vm_compute; reflexivity|].
  split; vm_compute; done.
Qed.

(** C3. The claim fails on the code: an elimination-risk timer of game [G]
    that [endGame] does not cancel runs after [endGame] has returned.
    [startEliminationRiskTimer] does not look at the status, so a timer can
    be started on a game that has ended (handle 1, at 250000 ms);
    [cleanupGame] (handle 0, at 300000 ms) then drops the game object, and
    the map that held handle 1 with it, without clearing the timeout.  A
    player joins under the same id, which makes a new game [G] with empty
    timer maps.  [endGame] on it returns [true], finds nothing to clear, and
    handle 1 stays armed: when it fires it eliminates the player of the new
    game with reason [elimination_risk_timeout]. *)
Theorem endGame_misses_timer_of_cleaned_up_game :
  ∃ s0 s1 s2 game2,
    run [EvJoin "sock1" "G" "P1" "Ann" "survivor" "NONE";
         EvEndGame "G" "first";
         EvTick 250000;
         EvStartRisk "G" "P1" None;
         EvTick 50000;
         EvFire 0;
         EvJoin "sock2" "G" "P1" "Ann" "survivor" "NONE"] (init 0) = Some s0 ∧
    pending s0 !! 1 =
      Some (mkTimer 100000 250000
              (CbEliminatePlayer "G" "P1" "elimination_risk_timeout")) ∧
    endGame "G" "second" s0 = (true, s1) ∧
    run [EvTick 50000; EvFire 1] s1 = Some s2 ∧
    games s2 !! "G" = Some game2 ∧
    Player.eliminationReason <$> Game.players game2 !! "P1" =
      Some (Some "elimination_risk_timeout").
Proof.
  eexists _, _, _, _. split; [vm_compute; reflexivity|].
  split; [vm_compute; reflexivity|].
  split; [vm_compute; reflexivity|].
  split; [vm_compute; reflexivity|].
  split; vm_compute; reflexivity.
Qed.

(** The same with a chase timer: started on the ended game at 297000 ms
    (handle 1, 5000 ms), it outlives the cleanup at 300000 ms; [endGame] on
    the new game of the same id does not cancel it, and [chase_timeout] is
    emitted for [G] after the [game_ended] of that [endGame]. *)
Example endGame_misses_chase_timer_of_cleaned_up_game :
  ∃ s0 s1 s2,
    run [EvJoin "sock1" "G" "P1" "Ann" "survivor" "NONE";
         EvEndGame "G" "first";
         EvTick 297000;
         EvStartChase "G" "H1" "S1" false;
         EvTick 3000;
         EvFire 0;
         EvJoin "sock2" "G" "P1" "Ann" "survivor" "NONE"] (init 0) = Some s0 ∧
    pending s0 !! 1 =
      Some (mkTimer 5000 297000 (CbChaseTimeout "G" "H1" "S1")) ∧
    endGame "G" "second" s0 = (true, s1) ∧
    run [EvTick 2000; EvFire 1] s1 = Some s2 ∧
    emittedBy s0 s2 =
      [game_ended "G" "second" 300000 300000;
       chase_timeout "G" "H1" "S1" 302000].
Proof.
  eexists _, _, _. split; [vm_compute; reflexivity|].
  split; [vm_compute; reflexivity|].
  split; [vm_compute; reflexivity|].
  split; vm_compute; reflexivity.
Qed.

Lemma eliminatePlayer_ends_game_iff_witness :
  ∃ s' game',
    eliminatePlayer "G2" "P2" (Some "manual") duelState = (true, s') ∧
    games s' !! "G2" = Some game' ∧
    Player.status <$> Game.players game' !! "P2" = Some eliminated ∧
    (game_ended "G2" "all_survivors_eliminated" 0 0 ∈ emittedBy duelState s'
     ↔ playing = playing ∧ noSurvivorLeft (Game.players game')).
Proof.
  apply (eliminatePlayer_ends_game_iff "G2" "P2" (Some "manual") duelState
           duelGame
           (Player.mk "P2" "Bob" "survivor" "NONE" "sock2" alive 0 None None)).
  - vm_compute. reflexivity.
  - vm_compute. reflexivity.
Defined.

(** ** JavaScript numbers: integers below [2^53] are exact *)

(** [binary64] depends on the value of the rational only. *)
Lemma binary64_proper (x y : Q) : (x == y)%Q → binary64 x = binary64 y.
Proof. intros H. unfold binary64. by rewrite (Qred_complete x y H). Qed.

Lemma Qred_inject_Z (n : Z) : Qred (inject_Z n) = inject_Z n.
Proof.
  unfold Qred, inject_Z.
  pose proof (Z.ggcd_gcd n 1) as Hg.
  pose proof (Z.ggcd_correct_divisors n 1) as Hd.
  destruct (Z.ggcd n 1) as [g [a b]]. cbn in Hg, Hd.
  rewrite Z.gcd_1_r in Hg. subst g. destruct Hd as [Ha Hb].
  assert (a = n) as -> by lia. assert (b = 1%Z) as -> by lia. done.
Qed.

Lemma roundHalfEven_int (x : Q) (m : Z) : (x == inject_Z m)%Q → roundHalfEven x = m.
Proof.
  intros H. unfold roundHalfEven.
  assert (Hf : Qfloor x = m) by (rewrite (Qfloor_comp _ _ H); apply Qfloor_Z).
  rewrite Hf.
  assert (Hlt : (x - inject_Z m < 1 # 2)%Q).
  { rewrite H. unfold Qminus, Qlt, Qplus, Qopp; cbn. lia. }
  apply Qlt_alt in Hlt. unfold Qcompare. by rewrite Hlt.
Qed.

Lemma ilog2_int (n : Z) : n ≠ 0%Z → ilog2 (inject_Z n) = Z.log2 (Z.abs n).
Proof.
  intros Hn. unfold ilog2. cbn [Qnum Qden inject_Z].
  change (Z.log2 1) with 0%Z. rewrite Z.sub_0_r.
  assert (Hle : Qle_bool (pow2 (Z.log2 (Z.abs n))) (Qabs (inject_Z n)) = true).
  { apply Qle_bool_iff. unfold pow2.
    pose proof (Z.log2_nonneg (Z.abs n)) as H0.
    destruct (Z.leb_spec 0 (Z.log2 (Z.abs n))); [|lia].
    unfold Qle, inject_Z, Qabs; cbn [Qnum Qden]. rewrite !Z.mul_1_r.
    apply Z.log2_spec. lia. }
  by rewrite Hle.
Qed.

Lemma pow2_neg_scale (k : Z) (n : Z) :
  (0 ≤ k)%Z → (inject_Z n / pow2 (- k) == inject_Z (n * 2 ^ k))%Q.
Proof.
  intros Hk. unfold pow2.
  assert (Hpos : (0 < 2 ^ k)%Z) by (apply Z.pow_pos_nonneg; lia).
  destruct (Z.leb_spec 0 (- k)).
  - assert (k = 0%Z) as -> by lia. change (2 ^ (- 0))%Z with 1%Z.
    change (2 ^ 0)%Z with 1%Z. unfold Qeq, Qdiv, Qmult, Qinv; cbn. lia.
  - rewrite Z.opp_involutive. unfold Qeq, Qdiv, Qmult, Qinv; cbn.
    rewrite Z2Pos.id by done. lia.
Qed.

Lemma pow2_neg_unscale (k : Z) (n : Z) :
  (0 ≤ k)%Z → (inject_Z (n * 2 ^ k) * pow2 (- k) == inject_Z n)%Q.
Proof.
  intros Hk. unfold pow2.
  assert (Hpos : (0 < 2 ^ k)%Z) by (apply Z.pow_pos_nonneg; lia).
  destruct (Z.leb_spec 0 (- k)).
  - assert (k = 0%Z) as -> by lia. change (2 ^ (- 0))%Z with 1%Z.
    change (2 ^ 0)%Z with 1%Z. unfold Qeq, Qmult; cbn. lia.
  - rewrite Z.opp_involutive. unfold Qeq, Qmult; cbn.
    rewrite Pos.mul_1_l, Z2Pos.id by done. lia.
Qed.

(** An integer below [2^53] in magnitude is a binary64 value. *)
Lemma binary64_int (n : Z) :
  (Z.abs n < 2 ^ 53)%Z → binary64 (inject_Z n) = Some (inject_Z n).
Proof.
  intros Hn. unfold binary64. rewrite Qred_inject_Z.
  destruct (Z.eq_dec n 0%Z) as [->|Hnz]; [done|].
  assert (Hz : Qeq_bool (inject_Z n) 0 = false).
  { apply not_true_is_false. intros H. apply Qeq_bool_iff in H.
    unfold Qeq in H; cbn in H. lia. }
  rewrite Hz, ilog2_int by done.
  set (L := Z.log2 (Z.abs n)).
  assert (HL : (0 ≤ L < 53)%Z).
  { split; [apply Z.log2_nonneg|]. apply Z.log2_lt_pow2; lia. }
  replace (Z.max (L - 52) (-1074)) with (- (52 - L))%Z by lia.
  rewrite (roundHalfEven_int _ (n * 2 ^ (52 - L))) by (apply pow2_neg_scale; lia).
  rewrite (Qred_complete _ (inject_Z n)) by (apply pow2_neg_unscale; lia).
  rewrite Qred_inject_Z.
  assert (Hfin : Qle_bool (pow2 1024) (Qabs (inject_Z n)) = false).
  { apply not_true_is_false. intros H. apply Qle_bool_iff in H.
    unfold pow2 in H. change (0 <=? 1024)%Z with true in H. cbv iota in H.
    unfold Qle, inject_Z, Qabs in H; cbn [Qnum Qden] in H.
    rewrite !Z.mul_1_r in H.
    assert (2 ^ 53 < 2 ^ 1024)%Z by (apply Z.pow_lt_mono_r; lia). lia. }
  by rewrite Hfin.
Qed.


(** The reading of the source in exact arithmetic is off above [2^53]: for
    a duration of 3002399751580331 ms the product with 3.0 rounds to
    [2^53], one less than three times the duration. *)
Example mercenaryDuration_rounds :
  mercenaryDuration 3002399751580331 3 = 9007199254740992%Z ∧
  (3 * 3002399751580331 = 9007199254740993)%Z ∧
  mercenaryDuration 200 3 = 600%Z ∧
  mercenaryDuration 7 (5 # 2) = 17%Z ∧
  mercenaryDuration 100 (57 # 100) = 56%Z.
Proof. vm_compute. done. Qed.

Lemma jsPlus_exact (a b : Z) :
  (Z.abs a < 2 ^ 53)%Z → (Z.abs b < 2 ^ 53)%Z → (Z.abs (a + b) < 2 ^ 53)%Z →
  jsPlus a b = (a + b)%Z.
Proof.
  intros Ha Hb Hab. unfold jsPlus. rewrite !binary64_int by done. cbn.
  rewrite (binary64_proper _ (inject_Z (a + b))).
  - rewrite binary64_int by done. apply Qfloor_Z.
  - unfold Qeq, Qplus, inject_Z; cbn. lia.
Qed.

(** ** The duration of an elimination-risk timer *)





(** ** The settings of a new game *)

(** C5 (as the code has it). For a [gameId] that is not in [this.games],
    the game built by [getOrCreateGame] has the [mercenaryMultiplier] of
    the supplied settings when they carry that field, and 3.0 when they do
    not; [joinGame], the only caller in the program, supplies no settings
    and so always gets 3.0. *)
Theorem getOrCreateGame_mercenaryMultiplier
    (gameId : string) (settings : Settings.supplied) (s : Server) :
  games s !! gameId = None →
  Settings.mercenaryMultiplier
    (Game.settings (getOrCreateGame gameId settings s).1) =
    default 3%Q (Settings.s_mercenaryMultiplier settings) ∧
  games (getOrCreateGame gameId settings s).2 !! gameId =
    Some (getOrCreateGame gameId settings s).1 ∧
  ∀ socketId playerId playerName role ability,
    Settings.mercenaryMultiplier
      (Game.settings
         (joinGame socketId gameId playerId playerName role ability s).1) = 3%Q.
Proof.
  intros Hg. unfold joinGame, getOrCreateGame. rewrite Hg. cbn.
  split; [done|]. split; [apply lookup_insert_eq|done].
Qed.

Lemma getOrCreateGame_mercenaryMultiplier_witness :
  let settings := Settings.mkSupplied None (Some 50000%Z) None (Some (5 # 2)) None in
  Settings.mercenaryMultiplier
    (Game.settings (getOrCreateGame "G" settings (init 0)).1) = 5 # 2 ∧
  games (getOrCreateGame "G" settings (init 0)).2 !! "G" =
    Some (getOrCreateGame "G" settings (init 0)).1 ∧
  ∀ socketId playerId playerName role ability,
    Settings.mercenaryMultiplier
      (Game.settings
         (joinGame socketId "G" playerId playerName role ability (init 0)).1) = 3%Q.
Proof.
  intros settings.
  apply (getOrCreateGame_mercenaryMultiplier "G" settings (init 0)).
  vm_compute. reflexivity.
Defined.

(** C5 as stated fails: [...settings] comes after [mercenaryMultiplier: 3.0]
    in the object literal, so a supplied multiplier of 5 is the one the
    game gets. *)
Lemma supplied_mercenaryMultiplier_overrides :
  Settings.mercenaryMultiplier
    (Game.settings
       (getOrCreateGame "G" (Settings.mkSupplied None None None (Some 5%Q) None)
          (init 0)).1) = 5%Q ∧
  5%Q ≠ 3%Q.
Proof. split; [vm_compute; reflexivity|discriminate]. Qed.

(** ** The status of an ended game *)

Ltac endedKept_tac :=
  cbn; repeat (case_match; simplify_eq; cbn in * ); try (by intros ?);
  unfold endedKept, gameStatusOf; cbn; autorewrite with prims; cbn;
  repeat match goal with
  | |- context [<[?a := _]> _ !! ?b] =>
      destruct (decide (a = b)); simplify_map_eq
  | |- context [delete ?a _ !! ?b] =>
      destruct (decide (a = b)); simplify_map_eq
  end; try done.

Lemma endedKept_endGame g gameId reason s :
  endedKept g s (endGame gameId reason s).2.
Proof. unfold endGame. endedKept_tac. Qed.

Lemma endedKept_checkGameEndConditions g gameId s :
  endedKept g s (checkGameEndConditions gameId s).
Proof.
  unfold checkGameEndConditions. repeat case_match; try (by intros ?).
  apply endedKept_endGame.
Qed.

Lemma endedKept_eliminatePlayer g gameId playerId reason s :
  endedKept g s (eliminatePlayer gameId playerId reason s).2.
Proof.
  unfold eliminatePlayer.
  cbn; repeat (case_match; simplify_eq; cbn in * ); try (by intros ?);
    (intros He; apply endedKept_checkGameEndConditions; revert He);
    endedKept_tac.
Qed.

Lemma endedKept_chaseTimeout g gameId hunterId survivorId s :
  endedKept g s (chaseTimeout gameId hunterId survivorId s).
Proof. unfold chaseTimeout. endedKept_tac. Qed.

Lemma endedKept_joinGame g socketId gameId playerId playerName role ability s :
  endedKept g s (joinGame socketId gameId playerId playerName role ability s).2.
Proof. unfold joinGame, getOrCreateGame. endedKept_tac. Qed.

Lemma endedKept_startGameTimer g gameId d s :
  gameId ≠ g → endedKept g s (startGameTimer gameId d s).2.
Proof. intros Hne. unfold startGameTimer. endedKept_tac. Qed.

Lemma endedKept_startEliminationRiskTimer g gameId playerId d s :
  endedKept g s (startEliminationRiskTimer gameId playerId d s).2.
Proof. unfold startEliminationRiskTimer. endedKept_tac. Qed.

Lemma endedKept_stopEliminationRiskTimer g gameId playerId s :
  endedKept g s (stopEliminationRiskTimer gameId playerId s).2.
Proof. unfold stopEliminationRiskTimer. endedKept_tac. Qed.

Lemma endedKept_startChaseCountdown g gameId hunterId survivorId ghost s :
  endedKept g s (startChaseCountdown gameId hunterId survivorId ghost s).2.
Proof. unfold startChaseCountdown. endedKept_tac. Qed.

Lemma endedKept_stopChaseCountdown g gameId hunterId survivorId s :
  endedKept g s (stopChaseCountdown gameId hunterId survivorId s).2.
Proof. unfold stopChaseCountdown. endedKept_tac. Qed.

Lemma endedKept_disconnectPlayer g socketId s :
  endedKept g s (disconnectPlayer socketId s).
Proof. unfold disconnectPlayer. endedKept_tac. Qed.

Lemma cleanupGame_status g gameId s :
  gameStatusOf (cleanupGame gameId s) g = gameStatusOf s g ∨
  gameStatusOf (cleanupGame gameId s) g = None.
Proof.
  unfold cleanupGame, gameStatusOf. destruct (games s !! gameId); [|by left].
  cbn. destruct (decide (gameId = g)) as [->|Hne].
  - right. by rewrite lookup_delete_eq.
  - left. by rewrite lookup_delete_ne.
Qed.

Lemma startGameTimer_status g d s game :
  games s !! g = Some game →
  gameStatusOf (startGameTimer g d s).2 g = Some playing.
Proof.
  intros Hg. unfold startGameTimer, gameStatusOf. rewrite Hg. cbn.
  by rewrite lookup_insert_eq.
Qed.

(** C6 (as the code has it). Let game [g] have status [ended].  A
    [start_game] message for [g] puts it back to [playing]:
    [startGameTimer] does not look at the status.  After any other event
    (any other message, any timeout firing, time passing) the game either
    still has status [ended] or is gone, removed by [cleanupGame]. *)
Theorem ended_game_status_after_step
    (e : Event) (s s' : Server) (g : string) :
  gameStatusOf s g = Some ended →
  step e s = Some s' →
  (startsGame g e → gameStatusOf s' g = Some playing) ∧
  (¬ startsGame g e →
     gameStatusOf s' g = Some ended ∨ gameStatusOf s' g = None).
Proof.
  intros Hended Hstep. split.
  - destruct e; cbn; try done. intros ->. unfold step in Hstep. simplify_eq.
    unfold gameStatusOf in Hended.
    destruct (games s !! g) as [game|] eqn:Hg; [|done].
    by eapply startGameTimer_status.
  - intros Hno. destruct e; unfold step in Hstep; simplify_eq.
    + left. by apply (endedKept_joinGame g socketId gameId playerId playerName
                        role ability s).
    + left. apply endedKept_startGameTimer; [|done]. by cbn in Hno.
    + left. by apply endedKept_startEliminationRiskTimer.
    + left. by apply endedKept_stopEliminationRiskTimer.
    + left. by apply endedKept_startChaseCountdown.
    + left. by apply endedKept_stopChaseCountdown.
    + left. by apply endedKept_eliminatePlayer.
    + left. by apply endedKept_endGame.
    + left. by apply endedKept_disconnectPlayer.
    + unfold fire in Hstep. repeat case_match; simplify_eq.
      assert (Hc : gameStatusOf (clearTimeout h s) g = Some ended) by done.
      destruct (callback t); cbn.
      * left. by apply endedKept_endGame.
      * left. by apply endedKept_eliminatePlayer.
      * left. by apply endedKept_chaseTimeout.
      * destruct (cleanupGame_status g gameId (clearTimeout h s)) as [Hk|Hk];
          rewrite Hk; auto.
    + by left.
Qed.

Lemma ended_game_status_after_step_witness :
  let s :=
    default (init 0)
      (run [EvJoin "sock1" "G" "P1" "Ann" "survivor" "NONE"; EvEndGame "G" "over"]
           (init 0)) in
  let s' := (startEliminationRiskTimer "G" "P1" None s).2 in
  (startsGame "G" (EvStartRisk "G" "P1" None) → gameStatusOf s' "G" = Some playing) ∧
  (¬ startsGame "G" (EvStartRisk "G" "P1" None) →
     gameStatusOf s' "G" = Some ended ∨ gameStatusOf s' "G" = None).
Proof.
  intros s s'.
  apply (ended_game_status_after_step (EvStartRisk "G" "P1" None) s s' "G").
  - vm_compute. reflexivity.
  - vm_compute. reflexivity.
Defined.

(** C6 as stated fails: a [start_game] message for an ended game that has
    not been cleaned up yet sets its status to [playing]. *)
Lemma startGameTimer_restarts_ended_game :
  ∃ s s',
    run [EvJoin "sock1" "G" "P1" "Ann" "survivor" "NONE"; EvEndGame "G" "over"]
        (init 0) = Some s ∧
    gameStatusOf s "G" = Some ended ∧
    startGameTimer "G" None s = (true, s') ∧
    gameStatusOf s' "G" = Some playing.
Proof.
  eexists _, _. split; [vm_compute; reflexivity|].
  split; [vm_compute; reflexivity|].
  split; vm_compute; reflexivity.
Qed.

(** ** The keys of the chase timers *)

(** The key separates the two ids as long as the hunter's has no
    underscore. *)
Lemma timerKey_inj (h h' v v' : string) :
  underscoreFree h → underscoreFree h' →
  timerKey h v = timerKey h' v' → h = h' ∧ v = v'.
Proof.
  unfold timerKey. revert h'.
  induction h as [|a h IH]; intros [|a' h'] Hh Hh' Heq; cbn in *.
  - by simplify_eq.
  - simplify_eq. by destruct Hh' as [? _].
  - simplify_eq. by destruct Hh as [? _].
  - destruct Hh as [_ Hh], Hh' as [_ Hh']. simplify_eq.
    destruct (IH h' Hh Hh') as [-> ->]; done.
Qed.

(** Starting a chase when the key already holds a handle disarms exactly
    that handle and arms the next fresh one. *)
Lemma startChaseCountdown_rearm g h v ghost s game old :
  games s !! g = Some game →
  Game.chaseTimers game !! timerKey h v = Some old →
  ∃ s' game' d,
    startChaseCountdown g h v ghost s = (true, s') ∧
    pending s' =
      <[nextTimer s := mkTimer d (clock s) (CbChaseTimeout g h v)]>
        (delete old (pending s)) ∧
    games s' !! g = Some game' ∧
    Game.chaseTimers game' !! timerKey h v = Some (nextTimer s).
Proof.
  intros Hg Hold. unfold startChaseCountdown. rewrite Hg. cbn. rewrite Hold.
  cbn. eexists _, _, _. split; [reflexivity|]. cbn. split; [reflexivity|].
  rewrite lookup_insert_eq. split; [reflexivity|]. cbn.
  by rewrite lookup_insert_eq.
Qed.

(** C7 at its failing inputs.  The key is the two ids joined by an
    underscore, so distinct ordered pairs share a key as soon as an id has
    an underscore itself: ("a_b","c") and ("a","b_c"), and also the two
    orders of ("x_x","x").  Starting the chase of the second pair then
    disarms the timeout of the first (handle 0), and stopping the first
    pair disarms the timeout of the second (handle 1). *)
Lemma chase_timer_keys_collide :
  timerKey "a_b" "c" = timerKey "a" "b_c" ∧
  ("a_b", "c") ≠ ("a", "b_c") ∧
  timerKey "x_x" "x" = timerKey "x" "x_x" ∧
  "x_x" ≠ "x" ∧
  let s0 := (joinGame "sock1" "G" "a" "Ann" "hunter" "NONE" (init 0)).2 in
  let s1 := (startChaseCountdown "G" "a_b" "c" false s0).2 in
  let s2 := (startChaseCountdown "G" "a" "b_c" false s1).2 in
  let s3 := (stopChaseCountdown "G" "a_b" "c" s2).2 in
  callback <$> pending s1 !! 0 = Some (CbChaseTimeout "G" "a_b" "c") ∧
  pending s2 !! 0 = None ∧
  callback <$> pending s2 !! 1 = Some (CbChaseTimeout "G" "a" "b_c") ∧
  (stopChaseCountdown "G" "a_b" "c" s2).1 = true ∧
  pending s3 !! 1 = None.
Proof. vm_compute. repeat split; done. Qed.

(** ** What the methods return *)

(** C8 as stated fails: no reading of the returned value tells apart the
    failures of [startEliminationRiskTimer].  With the game absent and with
    the game present but the player absent the method returns the same
    [false]. *)
Lemma bare_boolean_hides_failure_reason :
  ¬ ∃ decode : bool → option Failure,
      ∀ g p d s,
        decode (startEliminationRiskTimer g p d s).1 = whyStartRiskFails g p s.
Proof.
  intros [decode Hd].
  pose proof (Hd "G" "P1" None (init 0)) as H1.
  pose proof (Hd "G" "P2" None
                (joinGame "sock1" "G" "P1" "Ann" "survivor" "NONE" (init 0)).2)
    as H2.
  vm_compute in H1, H2. congruence.
Qed.

(** C8 (as the code has it). Each of the seven methods returns a bare
    boolean.  It is [true] exactly when the game exists (and, for the
    methods that name a player, the player exists; for the two stop
    methods, the timer map holds a handle under the key); it is [false]
    for every failure, whatever the reason, and then the state is
    unchanged. *)
Theorem methods_return_bare_booleans (s : Server) (g : string) :
  (∀ d, (startGameTimer g d s).1 = true ↔ is_Some (games s !! g)) ∧
  (∀ p d, (startEliminationRiskTimer g p d s).1 = true ↔
          is_Some (playerOf s g p)) ∧
  (∀ p, (stopEliminationRiskTimer g p s).1 = true ↔
        is_Some (riskTimerOf s g p)) ∧
  (∀ h v ghost, (startChaseCountdown g h v ghost s).1 = true ↔
                is_Some (games s !! g)) ∧
  (∀ h v, (stopChaseCountdown g h v s).1 = true ↔
          is_Some (chaseTimerOf s g h v)) ∧
  (∀ p reason, (eliminatePlayer g p reason s).1 = true ↔
               is_Some (playerOf s g p)) ∧
  (∀ reason, (endGame g reason s).1 = true ↔ is_Some (games s !! g)) ∧
  (∀ d, (startGameTimer g d s).1 = false → (startGameTimer g d s).2 = s) ∧
  (∀ p d, (startEliminationRiskTimer g p d s).1 = false →
          (startEliminationRiskTimer g p d s).2 = s) ∧
  (∀ p, (stopEliminationRiskTimer g p s).1 = false →
        (stopEliminationRiskTimer g p s).2 = s) ∧
  (∀ h v ghost, (startChaseCountdown g h v ghost s).1 = false →
                (startChaseCountdown g h v ghost s).2 = s) ∧
  (∀ h v, (stopChaseCountdown g h v s).1 = false →
          (stopChaseCountdown g h v s).2 = s) ∧
  (∀ p reason, (eliminatePlayer g p reason s).1 = false →
               (eliminatePlayer g p reason s).2 = s) ∧
  (∀ reason, (endGame g reason s).1 = false → (endGame g reason s).2 = s).
Proof.
  unfold startGameTimer, startEliminationRiskTimer, stopEliminationRiskTimer,
    startChaseCountdown, stopChaseCountdown, eliminatePlayer, endGame,
    riskTimerOf, playerOf, chaseTimerOf.
  destruct (games s !! g) as [game|] eqn:Hg; cbn.
  2: { repeat split; intros; try done; by apply is_Some_None in H. }
  repeat split; intros; try done.
  all: try (destruct (Game.players game !! p) eqn:Hp; cbn in *; try done).
  all: try (destruct (Game.eliminationRiskTimers game !! p) eqn:Hr; cbn in *;
            try done).
  all: try (destruct (Game.chaseTimers game !! timerKey h v) eqn:Hc; cbn in *;
            try done).
  all: try (destruct (Game.gameTimer game) eqn:Ht; cbn in *; try done).
  all: try (by apply is_Some_None in H).
Qed.

(** ** The elimination record of a player *)

Ltac recordKept_tac :=
  cbn; repeat (case_match; simplify_eq; cbn in * ); try done;
  unfold recordKept, eliminationRecordOf, playerOf; cbn;
  autorewrite with prims; cbn;
  repeat match goal with
  | |- context [<[?a := _]> _ !! ?b] =>
      destruct (decide (a = b)); simplify_map_eq
  | |- context [delete ?a _ !! ?b] =>
      destruct (decide (a = b)); simplify_map_eq
  end; try done.

Lemma recordKept_endGame g p gameId reason s :
  recordKept g p s (endGame gameId reason s).2.
Proof. unfold endGame. recordKept_tac. Qed.

Lemma recordKept_checkGameEndConditions g p gameId s :
  recordKept g p s (checkGameEndConditions gameId s).
Proof.
  unfold checkGameEndConditions. repeat case_match; try done.
  apply recordKept_endGame.
Qed.

Lemma recordKept_eliminatePlayer g p gameId playerId reason s :
  (gameId, playerId) ≠ (g, p) →
  recordKept g p s (eliminatePlayer gameId playerId reason s).2.
Proof.
  intros Hne. unfold eliminatePlayer.
  cbn; repeat (case_match; simplify_eq; cbn in * ); try done;
    (etrans; [apply recordKept_checkGameEndConditions|]); recordKept_tac.
Qed.

Lemma recordKept_chaseTimeout g p gameId hunterId survivorId s :
  recordKept g p s (chaseTimeout gameId hunterId survivorId s).
Proof. unfold chaseTimeout. recordKept_tac. Qed.

Lemma recordKept_startGameTimer g p gameId d s :
  recordKept g p s (startGameTimer gameId d s).2.
Proof. unfold startGameTimer. recordKept_tac. Qed.

Lemma recordKept_startEliminationRiskTimer g p gameId playerId d s :
  recordKept g p s (startEliminationRiskTimer gameId playerId d s).2.
Proof. unfold startEliminationRiskTimer. recordKept_tac. Qed.

Lemma recordKept_stopEliminationRiskTimer g p gameId playerId s :
  recordKept g p s (stopEliminationRiskTimer gameId playerId s).2.
Proof. unfold stopEliminationRiskTimer. recordKept_tac. Qed.

Lemma recordKept_startChaseCountdown g p gameId hunterId survivorId ghost s :
  recordKept g p s (startChaseCountdown gameId hunterId survivorId ghost s).2.
Proof. unfold startChaseCountdown. recordKept_tac. Qed.

Lemma recordKept_stopChaseCountdown g p gameId hunterId survivorId s :
  recordKept g p s (stopChaseCountdown gameId hunterId survivorId s).2.
Proof. unfold stopChaseCountdown. recordKept_tac. Qed.

(** C9 (as the code has it). Every successful [eliminatePlayer(g,p,reason)]
    writes both fields: after the call [p] has status [eliminated],
    [eliminatedAt] is the time of the call and [eliminationReason] is
    [reason] (['unknown'] if none is given), whatever [p]'s status and
    fields were before; a second call for an already eliminated [p]
    overwrites them.  [startGameTimer], the elimination-risk and chase
    timer methods, [chaseTimeout], [endGame] and [eliminatePlayer] for
    another player leave the two fields of [p] as they are. *)
Theorem elimination_record_written_by_each_call
    (g p : string) (reason : option string) (s : Server) (player : Player.t) :
  playerOf s g p = Some player →
  (∃ s' player',
     eliminatePlayer g p reason s = (true, s') ∧
     playerOf s' g p = Some player' ∧
     Player.status player' = eliminated ∧
     Player.eliminatedAt player' = Some (clock s) ∧
     Player.eliminationReason player' = Some (default "unknown" reason)) ∧
  (∀ g' d, recordKept g p s (startGameTimer g' d s).2) ∧
  (∀ g' p' d, recordKept g p s (startEliminationRiskTimer g' p' d s).2) ∧
  (∀ g' p', recordKept g p s (stopEliminationRiskTimer g' p' s).2) ∧
  (∀ g' h v ghost, recordKept g p s (startChaseCountdown g' h v ghost s).2) ∧
  (∀ g' h v, recordKept g p s (stopChaseCountdown g' h v s).2) ∧
  (∀ g' h v, recordKept g p s (chaseTimeout g' h v s)) ∧
  (∀ g' r, recordKept g p s (endGame g' r s).2) ∧
  (∀ g' p' r, (g', p') ≠ (g, p) →
              recordKept g p s (eliminatePlayer g' p' r s).2).
Proof.
  intros Hpl. split.
  - unfold playerOf in Hpl.
    destruct (games s !! g) as [game|] eqn:Hg; [|done]. cbn in Hpl.
    destruct (eliminatePlayer_effect g p reason s game player Hg Hpl)
      as (s' & game' & extra & Hel & Hg' & Hplayers & _).
    eexists s', _. split; [done|]. unfold playerOf. rewrite Hg'. cbn.
    rewrite Hplayers, lookup_insert_eq. done.
  - repeat split; intros;
      auto using recordKept_startGameTimer,
        recordKept_startEliminationRiskTimer,
        recordKept_stopEliminationRiskTimer, recordKept_startChaseCountdown,
        recordKept_stopChaseCountdown, recordKept_chaseTimeout,
        recordKept_endGame, recordKept_eliminatePlayer.
Qed.

Lemma elimination_record_written_by_each_call_witness :
  let s :=
    default (init 0)
      (run [EvJoin "sock1" "G" "P1" "Ann" "survivor" "NONE";
            EvEliminate "G" "P1" (Some "first");
            EvTick 5000] (init 0)) in
  ∃ s' player',
    eliminatePlayer "G" "P1" (Some "second") s = (true, s') ∧
    playerOf s' "G" "P1" = Some player' ∧
    Player.status player' = eliminated ∧
    Player.eliminatedAt player' = Some 5000%Z ∧
    Player.eliminationReason player' = Some "second".
Proof.
  intros s.
  apply (elimination_record_written_by_each_call "G" "P1" (Some "second") s
           (Player.mk "P1" "Ann" "survivor" "NONE" "sock1" eliminated 0
              (Some 0%Z) (Some "first"))).
  vm_compute. reflexivity.
Defined.

(** C9 as stated fails: a second [eliminatePlayer] for an eliminated player
    replaces both fields. *)
Lemma second_elimination_overwrites_record :
  ∃ s1 s2,
    run [EvJoin "sock1" "G" "P1" "Ann" "survivor" "NONE";
         EvEliminate "G" "P1" (Some "first")] (init 0) = Some s1 ∧
    Player.status <$> playerOf s1 "G" "P1" = Some eliminated ∧
    eliminationRecordOf s1 "G" "P1" = Some (Some 0%Z, Some "first") ∧
    run [EvTick 5000; EvEliminate "G" "P1" (Some "second")] s1 = Some s2 ∧
    eliminationRecordOf s2 "G" "P1" = Some (Some 5000%Z, Some "second").
Proof.
  eexists _, _. split; [vm_compute; reflexivity|].
  split; [vm_compute; reflexivity|].
  split; [vm_compute; reflexivity|].
  split; vm_compute; reflexivity.
Qed.

(** ** Every binding points to a game *)

Lemma sameDirectory_refl s : sameDirectory s s.
Proof. by split. Qed.

Lemma sameDirectory_trans s1 s2 s3 :
  sameDirectory s1 s2 → sameDirectory s2 s3 → sameDirectory s1 s3.
Proof.
  intros [Hp1 Hg1] [Hp2 Hg2]. split; [congruence|].
  intros g. by rewrite Hg2, Hg1.
Qed.

Lemma sameDirectory_invariant s s' :
  sameDirectory s s' → bindingsHaveGames s → bindingsHaveGames s'.
Proof.
  intros [Hp Hg] Hb sock b Hs. rewrite Hp in Hs. apply Hg. by eapply Hb.
Qed.

Ltac sameDirectory_tac :=
  cbn; repeat (case_match; simplify_eq; cbn in * );
  try apply sameDirectory_refl;
  (split; [cbn; autorewrite with prims; cbn; done|]);
  cbn; autorewrite with prims; cbn; intros ?;
  repeat match goal with
  | |- context [<[?a := _]> _ !! ?b] =>
      destruct (decide (a = b)); simplify_map_eq
  end; try done; split; eauto.

Lemma sameDirectory_endGame g reason s : sameDirectory s (endGame g reason s).2.
Proof. unfold endGame. sameDirectory_tac. Qed.

Lemma sameDirectory_checkGameEndConditions g s :
  sameDirectory s (checkGameEndConditions g s).
Proof.
  unfold checkGameEndConditions.
  repeat case_match; try apply sameDirectory_refl. apply sameDirectory_endGame.
Qed.

Lemma sameDirectory_eliminatePlayer g p reason s :
  sameDirectory s (eliminatePlayer g p reason s).2.
Proof.
  unfold eliminatePlayer.
  cbn; repeat (case_match; simplify_eq; cbn in * );
    try apply sameDirectory_refl;
    (eapply sameDirectory_trans; [|apply sameDirectory_checkGameEndConditions]);
    sameDirectory_tac.
Qed.

Lemma sameDirectory_chaseTimeout g h v s : sameDirectory s (chaseTimeout g h v s).
Proof. unfold chaseTimeout. sameDirectory_tac. Qed.

Lemma sameDirectory_startGameTimer g d s :
  sameDirectory s (startGameTimer g d s).2.
Proof. unfold startGameTimer. sameDirectory_tac. Qed.

Lemma sameDirectory_startEliminationRiskTimer g p d s :
  sameDirectory s (startEliminationRiskTimer g p d s).2.
Proof. unfold startEliminationRiskTimer. sameDirectory_tac. Qed.

Lemma sameDirectory_stopEliminationRiskTimer g p s :
  sameDirectory s (stopEliminationRiskTimer g p s).2.
Proof. unfold stopEliminationRiskTimer. sameDirectory_tac. Qed.

Lemma sameDirectory_startChaseCountdown g h v ghost s :
  sameDirectory s (startChaseCountdown g h v ghost s).2.
Proof. unfold startChaseCountdown. sameDirectory_tac. Qed.

Lemma sameDirectory_stopChaseCountdown g h v s :
  sameDirectory s (stopChaseCountdown g h v s).2.
Proof. unfold stopChaseCountdown. sameDirectory_tac. Qed.

Lemma bindingsHaveGames_joinGame socketId g playerId playerName role ability s :
  bindingsHaveGames s →
  bindingsHaveGames
    (joinGame socketId g playerId playerName role ability s).2.
Proof.
  intros Hb. unfold joinGame, getOrCreateGame.
  destruct (games s !! g) as [game|] eqn:Hg; cbn; intros sock b Hs;
    cbn in Hs |- *.
  all: apply lookup_insert_Some in Hs as [[<- <-]|[_ Hs]]; cbn.
  all: try (by rewrite lookup_insert_eq).
  all: destruct (decide (g = Binding.gameId b)) as [<-|Hne];
    [by rewrite lookup_insert_eq|].
  all: rewrite ?lookup_insert_ne by done; by eapply Hb.
Qed.

Lemma bindingsHaveGames_disconnectPlayer socketId s :
  bindingsHaveGames s → bindingsHaveGames (disconnectPlayer socketId s).
Proof.
  intros Hb. unfold disconnectPlayer.
  destruct (players s !! socketId) as [b0|] eqn:Hs0; [|done].
  destruct (games s !! Binding.gameId b0) as [game|] eqn:Hg; cbn.
  - destruct (Game.eliminationRiskTimers game !! Binding.playerId b0); cbn;
      intros sock b Hs; cbn in Hs |- *;
      apply lookup_delete_Some in Hs as [_ Hs].
    all: destruct (decide (Binding.gameId b0 = Binding.gameId b)) as [<-|Hne];
      [by rewrite lookup_insert_eq|].
    all: rewrite lookup_insert_ne by done; by eapply Hb.
  - intros sock b Hs; cbn in Hs |- *.
    apply lookup_delete_Some in Hs as [_ Hs]. by eapply Hb.
Qed.

Lemma bindingsHaveGames_cleanupGame g s :
  bindingsHaveGames s → bindingsHaveGames (cleanupGame g s).
Proof.
  intros Hb. unfold cleanupGame. destruct (games s !! g); [|done].
  intros sock b Hs. cbn in Hs |- *.
  apply map_lookup_filter_Some in Hs as [Hs Hne]. cbn in Hne.
  rewrite lookup_delete_ne by done. by eapply Hb.
Qed.

Lemma bindingsHaveGames_step e s s' :
  bindingsHaveGames s → step e s = Some s' → bindingsHaveGames s'.
Proof.
  intros Hb. destruct e; unfold step; intros Hs; simplify_eq;
    eauto using sameDirectory_invariant, sameDirectory_startGameTimer,
      sameDirectory_startEliminationRiskTimer,
      sameDirectory_stopEliminationRiskTimer,
      sameDirectory_startChaseCountdown, sameDirectory_stopChaseCountdown,
      sameDirectory_eliminatePlayer, sameDirectory_endGame,
      bindingsHaveGames_disconnectPlayer.
  - by apply (bindingsHaveGames_joinGame socketId gameId playerId playerName
                role ability) in Hb.
  - unfold fire in Hs. repeat case_match; simplify_eq.
    assert (Hc : bindingsHaveGames (clearTimeout h s)) by done.
    destruct (callback t); cbn;
      eauto using sameDirectory_invariant, sameDirectory_endGame,
        sameDirectory_eliminatePlayer, sameDirectory_chaseTimeout,
        bindingsHaveGames_cleanupGame.
Qed.

Lemma bindingsHaveGames_reachable s : reachable s → bindingsHaveGames s.
Proof.
  intros (t0 & evs & Hr).
  assert (Hinit : bindingsHaveGames (init t0)).
  { intros sock b Hs. cbn in Hs. by rewrite lookup_empty in Hs. }
  revert Hinit Hr. generalize (init t0). clear t0.
  induction evs as [|e evs IH]; intros s0 Hb Hr; cbn in Hr.
  - by simplify_eq.
  - destruct (step e s0) as [s1|] eqn:Hs; [|done].
    apply (IH s1); [|done]. by eapply bindingsHaveGames_step.
Qed.

(** ** A handle is recorded in one place only *)

Lemma handleAt_recorded game sl h : handleAt game sl = Some h → recorded game h.
Proof. destruct sl; cbn; unfold recorded; eauto. Qed.

Lemma slotsFrom_refl s : slotsFrom None s s.
Proof. intros g game sl h Hg Hh. left. eauto. Qed.

Lemma slotsFrom_trans s1 s2 s3 :
  slotsFrom None s1 s2 → slotsFrom None s2 s3 → slotsFrom None s1 s3.
Proof.
  intros H1 H2 g game3 sl h Hg Hh.
  destruct (H2 g game3 sl h Hg Hh) as [(game2 & Hg2 & Hh2)|[? _]]; [|done].
  apply (H1 g game2 sl h Hg2 Hh2).
Qed.

Lemma slotsFrom_invariant fresh s s' :
  slotsFrom fresh s s' → handlesBelow s → uniqueHandles s → uniqueHandles s'.
Proof.
  intros Hfrom Hb Hu g1 game1 sl1 g2 game2 sl2 h Hg1 Hh1 Hg2 Hh2.
  destruct (Hfrom g1 game1 sl1 h Hg1 Hh1) as [(o1 & Ho1 & Hho1)|[Hf1 ->]],
    (Hfrom g2 game2 sl2 _ Hg2 Hh2) as [(o2 & Ho2 & Hho2)|[Hf2 Hn2]].
  - by eapply Hu.
  - subst h. apply handleAt_recorded in Hho1.
    pose proof (Hb _ _ _ Ho1 Hho1). lia.
  - apply handleAt_recorded in Hho2.
    pose proof (Hb _ _ _ Ho2 Hho2). lia.
  - by simplify_eq.
Qed.

Ltac slotsFrom_tac :=
  cbn; repeat (case_match; simplify_eq; cbn in * );
  try apply slotsFrom_refl;
  unfold slotsFrom; cbn; autorewrite with prims; cbn;
  intros ? ? sl ? Hlook Hat;
  repeat match type of Hlook with
  | <[?a := _]> _ !! ?b = _ =>
      destruct (decide (a = b)); simplify_map_eq
  | delete ?a _ !! ?b = _ =>
      destruct (decide (a = b)); simplify_map_eq
  end;
  destruct sl; cbn in *;
  repeat match type of Hat with
  | <[?a := _]> _ !! ?b = _ =>
      destruct (decide (a = b)); simplify_map_eq
  | delete ?a _ !! ?b = _ =>
      destruct (decide (a = b)); simplify_map_eq
  end;
  simplify_eq; eauto.

Lemma slotsFrom_endGame g reason s : slotsFrom None s (endGame g reason s).2.
Proof. unfold endGame. slotsFrom_tac. Qed.

Lemma slotsFrom_checkGameEndConditions g s :
  slotsFrom None s (checkGameEndConditions g s).
Proof.
  unfold checkGameEndConditions.
  repeat case_match; try apply slotsFrom_refl. apply slotsFrom_endGame.
Qed.

Lemma slotsFrom_eliminatePlayer g p reason s :
  slotsFrom None s (eliminatePlayer g p reason s).2.
Proof.
  unfold eliminatePlayer.
  cbn; repeat (case_match; simplify_eq; cbn in * );
    try apply slotsFrom_refl;
    (eapply slotsFrom_trans; [|apply slotsFrom_checkGameEndConditions]);
    slotsFrom_tac.
Qed.

Lemma slotsFrom_chaseTimeout g h v s : slotsFrom None s (chaseTimeout g h v s).
Proof. unfold chaseTimeout. slotsFrom_tac. Qed.

Lemma slotsFrom_cleanupGame g s : slotsFrom None s (cleanupGame g s).
Proof. unfold cleanupGame. slotsFrom_tac. Qed.

Lemma slotsFrom_joinGame socketId g playerId playerName role ability s :
  slotsFrom None s (joinGame socketId g playerId playerName role ability s).2.
Proof. unfold joinGame, getOrCreateGame. slotsFrom_tac. Qed.

Lemma slotsFrom_startGameTimer g d s :
  slotsFrom (Some (g, GameSlot)) s (startGameTimer g d s).2.
Proof.
  unfold startGameTimer.
  destruct (games s !! g) eqn:Hg; [|intros ? ? ? ? ? ?; left; eauto].
  slotsFrom_tac.
Qed.

Lemma slotsFrom_startEliminationRiskTimer g p d s :
  slotsFrom (Some (g, RiskSlot p)) s (startEliminationRiskTimer g p d s).2.
Proof.
  unfold startEliminationRiskTimer.
  destruct (games s !! g) as [game|] eqn:Hg; [|intros ? ? ? ? ? ?; left; eauto].
  destruct (Game.players game !! p) eqn:Hp; [|intros ? ? ? ? ? ?; left; eauto].
  slotsFrom_tac.
Qed.

Lemma slotsFrom_stopEliminationRiskTimer g p s :
  slotsFrom None s (stopEliminationRiskTimer g p s).2.
Proof. unfold stopEliminationRiskTimer. slotsFrom_tac. Qed.

Lemma slotsFrom_startChaseCountdown g h v ghost s :
  slotsFrom (Some (g, ChaseSlot (timerKey h v))) s
    (startChaseCountdown g h v ghost s).2.
Proof.
  unfold startChaseCountdown.
  destruct (games s !! g) eqn:Hg; [|intros ? ? ? ? ? ?; left; eauto].
  slotsFrom_tac.
Qed.

Lemma slotsFrom_stopChaseCountdown g h v s :
  slotsFrom None s (stopChaseCountdown g h v s).2.
Proof. unfold stopChaseCountdown. slotsFrom_tac. Qed.

Lemma slotsFrom_disconnectPlayer socketId s :
  slotsFrom None s (disconnectPlayer socketId s).
Proof. unfold disconnectPlayer. slotsFrom_tac. Qed.

Lemma slotsFrom_step e s s' :
  step e s = Some s' → ∃ fresh, slotsFrom fresh s s'.
Proof.
  destruct e; unfold step; intros Hs; simplify_eq;
    eauto using slotsFrom_startGameTimer, slotsFrom_startEliminationRiskTimer,
      slotsFrom_stopEliminationRiskTimer, slotsFrom_startChaseCountdown,
      slotsFrom_stopChaseCountdown, slotsFrom_eliminatePlayer,
      slotsFrom_endGame, slotsFrom_disconnectPlayer.
  - exists None.
    exact (slotsFrom_joinGame socketId gameId playerId playerName role ability s).
  - unfold fire in Hs. repeat case_match; simplify_eq. exists None.
    assert (Hc : slotsFrom None s (clearTimeout h s))
      by (intros ? ? ? ? ? ?; left; eauto).
    eapply slotsFrom_trans; [exact Hc|].
    destruct (callback t); cbn;
      auto using slotsFrom_endGame, slotsFrom_eliminatePlayer,
        slotsFrom_chaseTimeout, slotsFrom_cleanupGame.
  - exists None. intros ? ? ? ? ? ?; left; eauto.
Qed.

Lemma uniqueHandles_reachable s : reachable s → uniqueHandles s.
Proof.
  intros (t0 & evs & Hr).
  assert (Hinit : handlesBelow (init t0) ∧ uniqueHandles (init t0)).
  { split.
    - intros g game h Hg. cbn in Hg. by rewrite lookup_empty in Hg.
    - intros g1 game1 sl1 g2 game2 sl2 h Hg. cbn in Hg.
      by rewrite lookup_empty in Hg. }
  revert Hinit Hr. generalize (init t0). clear t0.
  induction evs as [|e evs IH]; intros s0 [Hb Hu] Hr; cbn in Hr.
  - by simplify_eq.
  - destruct (step e s0) as [s1|] eqn:Hs; [|done].
    apply (IH s1); [|done]. split; [by eapply handlesBelow_step|].
    destruct (slotsFrom_step e s0 s1 Hs) as [fresh Hfrom].
    by eapply slotsFrom_invariant.
Qed.

(** ** Disconnecting *)

(** C10. In a reachable state, let socket [sock] be bound to player [p] of
    game [g].  Then [g] exists and [disconnectPlayer(sock)]
    - removes [p] from [game.players] and the handle of [p] from
      [game.timers.eliminationRiskTimers], and changes no other field of the
      game (status, settings, game timer, chase timers, times) and no other
      game;
    - disarms the elimination-risk handle of [p], if there is one, and no
      other timeout: every handle held by any other slot of any game, the
      chase timers of [g] among them, is armed after the call if and only
      if it was armed before, with the same timer;
    - emits [player_disconnected] and nothing else (no [game_ended]), arms
      no timeout, and does not touch the clock: the end condition is not
      evaluated;
    - removes the binding of [sock] and no other binding.
    When [sock] has no binding, the state is unchanged. *)
Theorem disconnectPlayer_effect (s : Server) (sock : string) :
  reachable s →
  (players s !! sock = None → disconnectPlayer sock s = s) ∧
  (∀ b, players s !! sock = Some b →
     let g := Binding.gameId b in
     let p := Binding.playerId b in
     let s' := disconnectPlayer sock s in
     ∃ game,
       games s !! g = Some game ∧
       games s' =
         <[g := Game.set_eliminationRiskTimers
                  (delete p (Game.eliminationRiskTimers game))
                  (Game.set_players (delete p (Game.players game)) game)]>
           (games s) ∧
       pending s' =
         disarm (option_list (Game.eliminationRiskTimers game !! p)) (pending s) ∧
       (∀ g2 game2 sl h,
          games s !! g2 = Some game2 → handleAt game2 sl = Some h →
          (g2, sl) ≠ (g, RiskSlot p) → pending s' !! h = pending s !! h) ∧
       (∀ k h, Game.chaseTimers game !! k = Some h →
               pending s' !! h = pending s !! h) ∧
       emittedBy s s' = [player_disconnected g p (clock s)] ∧
       nextTimer s' = nextTimer s ∧
       clock s' = clock s ∧
       players s' = delete sock (players s)).
Proof.
  intros Hreach. split.
  { intros Hn. unfold disconnectPlayer. by rewrite Hn. }
  intros b Hb g p s'.
  destruct (bindingsHaveGames_reachable s Hreach sock b Hb) as [game Hg].
  fold g in Hg. exists game. split; [done|].
  assert (Hs' :
    games s' =
      <[g := Game.set_eliminationRiskTimers
               (delete p (Game.eliminationRiskTimers game))
               (Game.set_players (delete p (Game.players game)) game)]>
        (games s) ∧
    pending s' =
      disarm (option_list (Game.eliminationRiskTimers game !! p)) (pending s) ∧
    emitted s' = emitted s ++ [player_disconnected g p (clock s)] ∧
    nextTimer s' = nextTimer s ∧ clock s' = clock s ∧
    players s' = delete sock (players s)).
  { subst s'. unfold disconnectPlayer. rewrite Hb. fold g p. rewrite Hg. cbn.
    destruct (Game.eliminationRiskTimers game !! p) as [h|] eqn:Hh; cbn;
      repeat split; try done.
    do 2 f_equal. destruct game; cbn in *.
    by rewrite (delete_id _ _ Hh). }
  destruct Hs' as (Hgames & Hpend & Hem & Hn & Hc & Hpl).
  assert (Hother : ∀ g2 game2 sl h,
            games s !! g2 = Some game2 → handleAt game2 sl = Some h →
            (g2, sl) ≠ (g, RiskSlot p) → pending s' !! h = pending s !! h).
  { intros g2 game2 sl h Hg2 Hh Hne. rewrite Hpend, lookup_disarm.
    destruct (Game.eliminationRiskTimers game !! p) as [hr|] eqn:Hr; cbn;
      [|by rewrite decide_False by apply not_elem_of_nil].
    rewrite decide_False; [done|]. intros ->%list_elem_of_singleton.
    destruct (uniqueHandles_reachable s Hreach g2 game2 sl g game (RiskSlot p)
                hr Hg2 Hh Hg Hr) as [-> ->]. done. }
  do 2 (split; [done|]). split; [done|]. split.
  { intros k h Hk. apply (Hother g game (ChaseSlot k) h Hg Hk). congruence. }
  split; [|done]. unfold emittedBy. by rewrite Hem, drop_app_length.
Qed.

(** A run of C10: the only survivor of a game in play, in elimination risk
    and chased, disconnects.  The game keeps its status and its chase
    timer; no [game_ended] is emitted. *)
Lemma disconnectPlayer_effect_witness :
  disconnectPlayer "nobody" busyState = busyState ∧
  let s' := disconnectPlayer "sock1" busyState in
  ∃ game,
    games busyState !! "G" = Some game ∧
    games s' =
      <["G" := Game.set_eliminationRiskTimers
                 (delete "P1" (Game.eliminationRiskTimers game))
                 (Game.set_players (delete "P1" (Game.players game)) game)]>
        (games busyState) ∧
    pending s' =
      disarm (option_list (Game.eliminationRiskTimers game !! "P1"))
             (pending busyState) ∧
    (∀ g2 game2 sl h,
       games busyState !! g2 = Some game2 → handleAt game2 sl = Some h →
       (g2, sl) ≠ ("G", RiskSlot "P1") →
       pending s' !! h = pending busyState !! h) ∧
    (∀ k h, Game.chaseTimers game !! k = Some h →
            pending s' !! h = pending busyState !! h) ∧
    emittedBy busyState s' = [player_disconnected "G" "P1" (clock busyState)] ∧
    nextTimer s' = nextTimer busyState ∧
    clock s' = clock busyState ∧
    players s' = delete "sock1" (players busyState).
Proof.
  split.
  - apply (disconnectPlayer_effect busyState "nobody").
    + exists 0%Z, busyEvents. vm_compute. reflexivity.
    + vm_compute. reflexivity.
  - destruct (disconnectPlayer_effect busyState "sock1") as [_ Hbound].
    + exists 0%Z, busyEvents. vm_compute. reflexivity.
    + apply (Hbound (Binding.mk "sock1" "P1" "Ann" "survivor" "NONE" "G" 0)).
      vm_compute. reflexivity.
Defined.

(** The run above, evaluated: after the disconnection the game is still
    [playing] with no player left, the chase timeout (handle 2) and the game
    timeout (handle 0) are armed, the risk timeout (handle 1) is not. *)
Example disconnect_last_survivor :
  let s' := disconnectPlayer "sock1" busyState in
  gameStatusOf s' "G" = Some playing ∧
  playerOf s' "G" "P1" = None ∧
  callback <$> pending s' !! 0 = Some (CbEndGame "G" "timeout") ∧
  pending s' !! 1 = None ∧
  callback <$> pending s' !! 2 = Some (CbChaseTimeout "G" "H1" "S1") ∧
  emittedBy busyState s' = [player_disconnected "G" "P1" 0].
Proof. vm_compute. repeat split; reflexivity. Qed.

(** ** The scenarios of the specification, run on the model *)

(** Without the game or without the player, [eliminatePlayer] returns
    [false] and changes nothing: no end condition is evaluated. *)
Lemma eliminatePlayer_absent g p reason s :
  playerOf s g p = None → eliminatePlayer g p reason s = (false, s).
Proof.
  unfold playerOf, eliminatePlayer. destruct (games s !! g) as [game|]; [|done].
  cbn. by intros ->.
Qed.

(** Scenario A: a game started for 1000 ms ends by timeout when its timer
    fires, here 1000 ms later. *)
Example scenario_game_timeout :
  (emitted <$>
   run [EvJoin "sock1" "G1" "P1" "Ann" "survivor" "NONE";
        EvStartGame "G1" (Some 1000%Z); EvTick 1000; EvFire 0] (init 0)) =
    Some [player_joined "G1" "P1" "Ann" "survivor" "NONE" 0;
          game_timer_started "G1" 1000 0 1000 0;
          game_ended "G1" "timeout" 1000 1000].
Proof. vm_compute. reflexivity. Qed.

(** Scenario B: two survivors; the game goes on after the first
    elimination and ends with the second. *)
Example scenario_last_survivor :
  (emitted <$> run [EvEliminate "G2" "P2" (Some "manual")] duelState) =
    Some [player_joined "G2" "P1" "Ann" "survivor" "NONE" 0;
          player_joined "G2" "P2" "Bob" "survivor" "NONE" 0;
          game_timer_started "G2" 600000 0 600000 0;
          player_eliminated "G2" "P1" "manual" 0 0;
          player_eliminated "G2" "P2" "manual" 0 0;
          game_ended "G2" "all_survivors_eliminated" 0 0].
Proof. vm_compute. reflexivity. Qed.

(** Scenario D: a chase started again for the same pair, now with the ghost
    ability: one timeout is left, with the ghost duration. *)
Example scenario_chase_rearmed :
  let s :=
    run [EvJoin "sock1" "G4" "H1" "Ann" "hunter" "NONE";
         EvStartChase "G4" "H1" "S1" false;
         EvStartChase "G4" "H1" "S1" true] (init 0) in
  (map_to_list ∘ pending <$> s) =
    Some [(1, mkTimer 3000 0 (CbChaseTimeout "G4" "H1" "S1"))].
Proof. vm_compute. reflexivity. Qed.

(** ** Creating and joining games *)

(** X1. [getOrCreateGame] on an id that is not registered builds a game in
    status [waiting] with no player and no timer, registered under the id,
    whose settings take every field the caller supplied exactly as supplied
    (a supplied 0 included: the spread comes after the [||] defaults and
    overrides them) and the defaults 600000, 100000, 5000, 3.0 and 3000 for
    the fields the caller left out.  Nothing else changes. *)
Theorem getOrCreateGame_new
    (gameId : string) (settings : Settings.supplied) (s : Server) :
  games s !! gameId = None →
  let game := (getOrCreateGame gameId settings s).1 in
  let s' := (getOrCreateGame gameId settings s).2 in
  games s' = <[gameId := game]> (games s) ∧
  Game.id game = gameId ∧
  Game.status game = waiting ∧
  Game.players game = ∅ ∧
  (∀ h, ¬ recorded game h) ∧
  Game.settings game =
    Settings.mk
      (default 600000%Z (Settings.s_gameDuration settings))
      (default 100000%Z (Settings.s_eliminationRiskDuration settings))
      (default 5000%Z (Settings.s_chaseCountdown settings))
      (default 3%Q (Settings.s_mercenaryMultiplier settings))
      (default 3000%Z (Settings.s_ghostChaseCountdown settings)) ∧
  players s' = players s ∧ pending s' = pending s ∧ emitted s' = emitted s.
Proof.
  intros Hg. unfold getOrCreateGame. rewrite Hg. cbn.
  do 4 (split; [done|]). split.
  { intros h [Ht|[[p Hp]|[k Hk]]]; cbn in *; [done| |];
      by rewrite lookup_empty in *. }
  split; [|done]. unfold spread, defaultSettings. cbn.
  destruct settings as [[a|] [b|] [c|] [d|] [e|]]; reflexivity.
Qed.

Lemma getOrCreateGame_new_witness :
  let settings :=
    Settings.mkSupplied (Some 0%Z) None (Some 7000%Z) None None in
  Game.settings (getOrCreateGame "G" settings (init 5)).1 =
    Settings.mk 0 100000 7000 3 3000.
Proof.
  intros settings.
  apply (getOrCreateGame_new "G" settings (init 5)).
  vm_compute. reflexivity.
Defined.

(** [getOrCreateGame] on a registered id returns the registered game and
    changes nothing; the supplied settings are ignored. *)
Lemma getOrCreateGame_existing
    (gameId : string) (settings : Settings.supplied) (s : Server) (game : Game.t) :
  games s !! gameId = Some game →
  getOrCreateGame gameId settings s = (game, s).
Proof. intros Hg. unfold getOrCreateGame. by rewrite Hg. Qed.

(** X2. [joinGame(socket, g, p, ...)] binds the socket to [(g, p)] and puts
    a fresh record for [p] into the players of [g]: status [alive], no
    [eliminatedAt], no [eliminationReason], whatever record [p] had before
    (an eliminated player who joins again is alive again).  The other
    players of [g], the three timer collections of [g], the other games and
    the armed timeouts are untouched, so an elimination-risk timer [p] had
    stays armed.  Joining a second time with the same arguments changes
    nothing more. *)
Theorem joinGame_effect
    (socketId g p playerName role ability : string) (s : Server) :
  let s' := (joinGame socketId g p playerName role ability s).2 in
  players s' !! socketId =
    Some (Binding.mk socketId p playerName role ability g (clock s)) ∧
  playerOf s' g p =
    Some (Player.mk p playerName role ability socketId alive (clock s)
            None None) ∧
  (∀ q, q ≠ p → playerOf s' g q = playerOf s g q) ∧
  (∀ sl, (games s' !! g ≫= λ game, handleAt game sl) =
         (games s !! g ≫= λ game, handleAt game sl)) ∧
  gameStatusOf s' g = Some (default waiting (gameStatusOf s g)) ∧
  (∀ g', g' ≠ g → games s' !! g' = games s !! g') ∧
  (∀ sock, sock ≠ socketId → players s' !! sock = players s !! sock) ∧
  pending s' = pending s ∧ nextTimer s' = nextTimer s ∧
  emitted s' = emitted s ∧
  (joinGame socketId g p playerName role ability s').2 = s'.
Proof.
  unfold joinGame, getOrCreateGame, playerOf, gameStatusOf.
  destruct (games s !! g) as [game|] eqn:Hg; cbn.
  all: rewrite ?lookup_insert_eq; cbn; rewrite ?lookup_insert_eq.
  all: split; [done|]. all: split; [done|].
  all: split;
    [intros q Hq; rewrite lookup_insert_ne by congruence; done|].
  all: split;
    [intros sl; destruct sl; cbn; by rewrite ?lookup_empty|].
  all: split; [done|].
  all: split;
    [intros g' Hg'; rewrite !lookup_insert_ne by congruence; done|].
  all: split;
    [intros sock Hs; rewrite lookup_insert_ne by congruence; done|].
  all: do 3 (split; [done|]).
  all: unfold store_game, set_players, set_games; cbn;
    by rewrite !insert_insert_eq.
Qed.

(** [cleanupGame(g)] on a registered game removes the game and every
    binding whose [gameId] is [g], and nothing else: the armed timeouts stay
    (the timeouts of [g] are not cleared). *)
Lemma cleanupGame_registered (g : string) (s : Server) :
  is_Some (games s !! g) →
  games (cleanupGame g s) = delete g (games s) ∧
  (∀ sock b, players (cleanupGame g s) !! sock = Some b ↔
             players s !! sock = Some b ∧ Binding.gameId b ≠ g) ∧
  pending (cleanupGame g s) = pending s ∧
  nextTimer (cleanupGame g s) = nextTimer s ∧
  emitted (cleanupGame g s) = emitted s.
Proof.
  unfold cleanupGame. intros [game ->]. cbn. split; [done|]. split; [|done].
  intros sock b. by rewrite map_lookup_filter_Some.
Qed.

(** ** Server statistics *)

Lemma filter_eq_nil {A} (P : A → Prop) `{!∀ x, Decision (P x)} (l : list A) :
  (∀ x, x ∈ l → ¬ P x) → filter P l = [].
Proof.
  induction l as [|a l IH]; intros Hno; [done|].
  rewrite filter_cons. destruct (decide (P a)) as [Ha|_].
  - destruct (Hno a); [left|done].
  - apply IH. intros x Hx. apply Hno. by right.
Qed.

Lemma status_partition (l : list Game.t) :
  length (filter (λ g, Game.status g = playing) l) +
  length (filter (λ g, Game.status g = waiting) l) +
  length (filter (λ g, Game.status g = ended) l) = length l.
Proof.
  induction l as [|g l IH]; [done|].
  rewrite !filter_cons. destruct (Game.status g) eqn:Hst; cbn;
    repeat case_decide; try done; cbn; lia.
Qed.

(** X3. In [getServerStats] the games counted as active and as waiting are
    disjoint parts of the registered games: together with the ended games
    they add up to [totalGames], so [activeGames + waitingGames] is at most
    [totalGames], and equal to it exactly when no registered game has
    ended. *)
Theorem getServerStats_counts (s : Server) :
  let stats := getServerStats s in
  activeGames stats + waitingGames stats + countStatus ended s =
    totalGames stats ∧
  activeGames stats + waitingGames stats ≤ totalGames stats ∧
  (activeGames stats + waitingGames stats = totalGames stats ↔
   ∀ g game, games s !! g = Some game → Game.status game ≠ ended).
Proof.
  cbn. unfold countStatus.
  pose proof (status_partition (map_to_list (games s)).*2) as Hpart.
  rewrite length_fmap, length_map_to_list in Hpart.
  split; [done|]. split; [lia|]. split.
  - intros Heq g game Hg He.
    assert (Hz : length (filter (λ g, Game.status g = ended)
                           (map_to_list (games s)).*2) = 0) by lia.
    apply length_zero_iff_nil in Hz.
    eapply (filter_nil_not_elem_of _ _ game Hz); [done|].
    apply list_elem_of_fmap. exists (g, game). split; [done|].
    by apply elem_of_map_to_list.
  - intros Hno.
    assert (Hz : filter (λ g, Game.status g = ended)
                   (map_to_list (games s)).*2 = []).
    { apply filter_eq_nil. intros game Hin He.
      apply list_elem_of_fmap in Hin as [[g game'] [-> Hin]].
      apply elem_of_map_to_list in Hin. by eapply Hno. }
    rewrite Hz in Hpart. cbn in Hpart. lia.
Qed.

(** ** Timers running out *)

Lemma disarmed_stays h s s' :
  extends s s' → pending s !! h = None → h < nextTimer s →
  pending s' !! h = None.
Proof.
  intros [Hn Hg] Hp Hlt. destruct (pending s' !! h) as [t|] eqn:Hl; [|done].
  destruct (Hg h t Hl) as [?|?]; [congruence|lia].
Qed.

Lemma fire_armed h t s :
  pending s !! h = Some t →
  fire h s = Some (runCallback (callback t) (clearTimeout h s)).
Proof. intros Hp. unfold fire. by rewrite Hp. Qed.

Lemma eliminatePlayer_risk_gone g p reason s game player :
  games s !! g = Some game →
  Game.players game !! p = Some player →
  riskTimerOf (eliminatePlayer g p reason s).2 g p = None.
Proof.
  intros Hg Hp. unfold eliminatePlayer. rewrite Hg, Hp.
  destruct (Game.eliminationRiskTimers game !! p) as [h|] eqn:Hh; cbn.
  all: match goal with
       | |- riskTimerOf (checkGameEndConditions _ ?m) _ _ = None =>
           pose proof (riskKept_checkGameEndConditions g p g m) as Hk;
           destruct (riskTimerOf (checkGameEndConditions g m) g p)
             as [y|] eqn:Hy; [|done];
           specialize (Hk y Hy); unfold riskTimerOf in Hk; cbn in Hk;
           rewrite lookup_insert_eq in Hk; cbn in Hk
       end.
  - by rewrite lookup_delete_eq in Hk.
  - by rewrite Hh in Hk.
Qed.



(** X5. The elimination-risk timer.  For a player [p] of a registered game,
    a [start_elimination_risk] message arms one timeout; when that timeout
    fires, after whatever time [dt] and with no other event in between, it
    eliminates [p] with reason [elimination_risk_timeout] at the time of the
    firing and removes the handle from the map. *)
Theorem risk_timer_runs_out
    (g p : string) (d : option Z) (s : Server)
    (game : Game.t) (player : Player.t) (dt : N) :
  games s !! g = Some game →
  Game.players game !! p = Some player →
  ∃ s' player',
    run [EvStartRisk g p d; EvTick dt; EvFire (nextTimer s)] s = Some s' ∧
    playerOf s' g p = Some player' ∧
    Player.status player' = eliminated ∧
    Player.eliminatedAt player' = Some (clock s + Z.of_N dt)%Z ∧
    Player.eliminationReason player' = Some "elimination_risk_timeout" ∧
    riskTimerOf s' g p = None ∧
    player_eliminated g p "elimination_risk_timeout"
      (clock s + Z.of_N dt)%Z (clock s + Z.of_N dt)%Z ∈ emittedBy s s'.
Proof.
  intros Hg Hp.
  destruct (startEliminationRiskTimer g p d s) as [b s1] eqn:Hs.
  assert (b = true) as ->.
  { unfold startEliminationRiskTimer in Hs. rewrite Hg, Hp in Hs.
    cbn in Hs. by simplify_eq. }
  destruct (startEliminationRiskTimer_true g p d s s1 Hs)
    as (game0 & player0 & Hg0 & Hp0 & Hrisk1 & Hn1 & Hpend1).
  simplify_eq.
  assert (Hmore : clock s1 = clock s ∧
            (∃ player1, playerOf s1 g p = Some player1) ∧
            ∃ e, emitted s1 = emitted s ++ [e]).
  { unfold startEliminationRiskTimer in Hs. rewrite Hg, Hp in Hs.
    cbn in Hs. simplify_eq. unfold playerOf. cbn. autorewrite with prims.
    rewrite lookup_insert_eq. cbn. rewrite lookup_insert_eq. eauto. }
  destruct Hmore as (Hc1 & [player1 Hpl1] & [e1 Hem1]).
  cbn [run step]. rewrite Hs. cbn [snd].
  rewrite (fire_armed (nextTimer s) _ (tick dt s1) Hpend1).
  cbn [callback runCallback].
  set (mid := clearTimeout (nextTimer s) (tick dt s1)).
  unfold playerOf in Hpl1.
  destruct (games s1 !! g) as [game1|] eqn:Hg1; [|done]. cbn in Hpl1.
  assert (Hgm : games mid !! g = Some game1) by done.
  destruct (eliminatePlayer_effect g p (Some "elimination_risk_timeout")
              mid game1 player1 Hgm Hpl1)
    as (s' & game' & extra & Hel & Hg' & Hplayers & Hem & _).
  rewrite Hel. cbn [snd]. eexists s', _. split; [reflexivity|].
  unfold playerOf. rewrite Hg'. cbn. rewrite Hplayers, lookup_insert_eq.
  split; [reflexivity|]. cbn. rewrite Hc1. do 3 (split; [done|]).
  split.
  - pose proof (eliminatePlayer_risk_gone g p
                  (Some "elimination_risk_timeout") mid game1 player1
                  Hgm Hpl1) as Hgone.
    by rewrite Hel in Hgone.
  - unfold emittedBy. rewrite Hem. cbn. rewrite Hem1, Hc1, <- app_assoc.
    rewrite drop_app_length. cbn. right. left.
Qed.

Lemma risk_timer_runs_out_witness :
  let s := (joinGame "sock1" "G" "P1" "Ann" "survivor" "MERCENARY" (init 0)).2 in
  ∃ s' player',
    run [EvStartRisk "G" "P1" (Some 200%Z); EvTick 600; EvFire 0] s = Some s' ∧
    playerOf s' "G" "P1" = Some player' ∧
    Player.status player' = eliminated ∧
    Player.eliminatedAt player' = Some 600%Z ∧
    Player.eliminationReason player' = Some "elimination_risk_timeout" ∧
    riskTimerOf s' "G" "P1" = None ∧
    player_eliminated "G" "P1" "elimination_risk_timeout" 600 600
      ∈ emittedBy s s'.
Proof.
  intros s.
  set (player := Player.mk "P1" "Ann" "survivor" "MERCENARY" "sock1" alive 0
                    None None).
  set (game := Game.mk "G" {["P1" := player]} waiting
                 (Settings.mk 600000 100000 5000 3 3000)
                 None ∅ ∅ None None 0 None None).
  assert (Hg : games s !! "G" = Some game) by (vm_compute; reflexivity).
  assert (Hp : Game.players game !! "P1" = Some player)
    by (vm_compute; reflexivity).
  exact (risk_timer_runs_out "G" "P1" (Some 200%Z) s game player 600 Hg Hp).
Defined.

(** X6. The cleanup timer.  On a registered game, [endGame] arms one
    timeout of 300000 ms; when that timeout fires, after whatever time [dt]
    and with no other event in between, it removes the game from the
    registry and every binding that names it, and leaves the other games and
    bindings alone. *)
Theorem ended_game_is_cleaned_up
    (g reason : string) (s : Server) (game : Game.t) (dt : N) :
  games s !! g = Some game →
  ∃ s1 s',
    endGame g reason s = (true, s1) ∧
    pending s1 !! nextTimer s =
      Some (mkTimer 300000 (clock s) (CbCleanupGame g)) ∧
    run [EvEndGame g reason; EvTick dt; EvFire (nextTimer s)] s = Some s' ∧
    games s' = delete g (games s) ∧
    (∀ sock b, players s' !! sock = Some b ↔
               players s !! sock = Some b ∧ Binding.gameId b ≠ g) ∧
    emittedBy s s' = [game_ended g reason (clock s) (clock s)].
Proof.
  intros Hg.
  assert (Hend : ∃ s1,
    endGame g reason s = (true, s1) ∧
    is_Some (games s1 !! g) ∧
    delete g (games s1) = delete g (games s) ∧
    players s1 = players s ∧
    pending s1 !! nextTimer s =
      Some (mkTimer 300000 (clock s) (CbCleanupGame g)) ∧
    clock s1 = clock s ∧
    emitted s1 = emitted s ++ [game_ended g reason (clock s) (clock s)]).
  { unfold endGame. rewrite Hg. cbn.
    destruct (Game.gameTimer game); cbn; eexists; (split; [reflexivity|]);
      cbn; autorewrite with prims; rewrite !lookup_insert_eq;
      rewrite delete_insert_eq; eauto 10. }
  destruct Hend as (s1 & Hs1 & Hg1 & Hdel & Hpl1 & Hp1 & Hc1 & Hem1).
  exists s1. cbn [run step]. rewrite Hs1. cbn [snd].
  rewrite (fire_armed (nextTimer s) _ (tick dt s1) Hp1).
  cbn [callback runCallback].
  eexists. do 2 (split; [done|]). split; [reflexivity|].
  destruct (cleanupGame_registered g
              (clearTimeout (nextTimer s) (tick dt s1)) Hg1)
    as (Hgames & Hb & _ & _ & Hem). cbn in Hgames, Hb, Hem.
  rewrite Hgames, Hdel. split; [done|]. split.
  - intros sock b. rewrite Hb. by rewrite Hpl1.
  - unfold emittedBy. rewrite Hem, Hem1. by rewrite drop_app_length.
Qed.

Lemma ended_game_is_cleaned_up_witness :
  ∃ s1 s',
    endGame "G" "manual" busyState = (true, s1) ∧
    pending s1 !! 3 = Some (mkTimer 300000 0 (CbCleanupGame "G")) ∧
    run [EvEndGame "G" "manual"; EvTick 300000; EvFire 3] busyState = Some s' ∧
    games s' = delete "G" (games busyState) ∧
    (∀ sock b, players s' !! sock = Some b ↔
               players busyState !! sock = Some b ∧ Binding.gameId b ≠ "G") ∧
    emittedBy busyState s' = [game_ended "G" "manual" 0 0].
Proof.
  assert (Hg : games busyState !! "G" = Some busyGame)
    by (vm_compute; reflexivity).
  exact (ended_game_is_cleaned_up "G" "manual" busyState busyGame 300000 Hg).
Defined.

(** ** One elimination-risk timer per player *)

(** X7. Starting the elimination-risk timer of a player who has one already
    replaces it: in a reachable state the handle stored before is disarmed
    and never fires in any later execution, the map holds the new handle,
    and the table of armed timeouts changes by that one removal and that
    one addition only. *)
Theorem risk_timer_rearm
    (g p : string) (d : option Z) (s : Server)
    (game : Game.t) (player : Player.t) (old : handle) :
  reachable s →
  games s !! g = Some game →
  Game.players game !! p = Some player →
  Game.eliminationRiskTimers game !! p = Some old →
  ∃ s',
    startEliminationRiskTimer g p d s = (true, s') ∧
    riskTimerOf s' g p = Some (nextTimer s) ∧
    old ≠ nextTimer s ∧
    pending s' =
      <[nextTimer s := mkTimer (riskDuration game player d) (clock s)
                         (CbEliminatePlayer g p "elimination_risk_timeout")]>
        (delete old (pending s)) ∧
    ∀ later s'', run later s' = Some s'' → EvFire old ∉ later.
Proof.
  intros Hreach Hg Hp Hold.
  assert (Hlt : old < nextTimer s).
  { apply (handlesBelow_reachable s Hreach g game old Hg).
    right. left. eauto. }
  assert (Hs : ∃ s',
    startEliminationRiskTimer g p d s = (true, s') ∧
    riskTimerOf s' g p = Some (nextTimer s) ∧
    pending s' =
      <[nextTimer s := mkTimer (riskDuration game player d) (clock s)
                         (CbEliminatePlayer g p "elimination_risk_timeout")]>
        (delete old (pending s)) ∧
    nextTimer s' = S (nextTimer s)).
  { unfold startEliminationRiskTimer, riskTimerOf, riskDuration.
    rewrite Hg, Hp. cbn. rewrite Hold. cbn. eexists. split; [reflexivity|].
    cbn. rewrite !lookup_insert_eq. cbn. by rewrite lookup_insert_eq. }
  destruct Hs as (s' & Hs & Hrisk & Hpend & Hn).
  exists s'. do 2 (split; [done|]). split; [lia|]. split; [done|].
  intros later s'' Hrun.
  apply (disarmed_never_fires old later s' s''); [|lia|done].
  rewrite Hpend, lookup_insert_ne by lia. apply lookup_delete_eq.
Qed.

Lemma risk_timer_rearm_witness :
  ∃ s',
    startEliminationRiskTimer "G" "P1" (Some 50%Z) busyState = (true, s') ∧
    riskTimerOf s' "G" "P1" = Some 3 ∧
    1 ≠ 3 ∧
    pending s' =
      <[3 := mkTimer 50 0
               (CbEliminatePlayer "G" "P1" "elimination_risk_timeout")]>
        (delete 1 (pending busyState)) ∧
    ∀ later s'', run later s' = Some s'' → EvFire 1 ∉ later.
Proof.
  apply (risk_timer_rearm "G" "P1" (Some 50%Z) busyState busyGame
           (Player.mk "P1" "Ann" "survivor" "NONE" "sock1" elimination_risk
              0 None None) 1).
  - exists 0%Z, busyEvents. vm_compute. reflexivity.
  - vm_compute. reflexivity.
  - vm_compute. reflexivity.
  - vm_compute. reflexivity.
Defined.

(** X8. [eliminatePlayer] cancels the elimination-risk timer of the
    player: in a reachable state, if the map holds a handle for the player,
    then after the call the map holds none, the handle is disarmed, and it
    never fires in any later execution (the player is not eliminated a
    second time by the old timer). *)
Theorem eliminatePlayer_cancels_risk_timer
    (g p : string) (reason : option string) (s : Server)
    (game : Game.t) (player : Player.t) (h : handle) :
  reachable s →
  games s !! g = Some game →
  Game.players game !! p = Some player →
  Game.eliminationRiskTimers game !! p = Some h →
  ∃ s',
    eliminatePlayer g p reason s = (true, s') ∧
    riskTimerOf s' g p = None ∧
    pending s' !! h = None ∧
    ∀ later s'', run later s' = Some s'' → EvFire h ∉ later.
Proof.
  intros Hreach Hg Hp Hh.
  assert (Hlt : h < nextTimer s).
  { apply (handlesBelow_reachable s Hreach g game h Hg). right. left. eauto. }
  pose proof (eliminatePlayer_risk_gone g p reason s game player Hg Hp) as Hgone.
  assert (Hs : ∃ mid,
    eliminatePlayer g p reason s = (true, checkGameEndConditions g mid) ∧
    pending mid = delete h (pending s) ∧ nextTimer mid = nextTimer s).
  { unfold eliminatePlayer. rewrite Hg, Hp, Hh. cbn. eexists.
    split; [reflexivity|]. done. }
  destruct Hs as (mid & Hs & Hpm & Hnm).
  rewrite Hs in Hgone. cbn in Hgone.
  exists (checkGameEndConditions g mid). do 2 (split; [done|]).
  pose proof (extends_checkGameEndConditions mid mid g (extends_refl mid))
    as Hext.
  assert (Hnone : pending (checkGameEndConditions g mid) !! h = None).
  { apply (disarmed_stays h mid); [done| |lia].
    rewrite Hpm. apply lookup_delete_eq. }
  split; [done|]. intros later s'' Hrun.
  apply (disarmed_never_fires h later (checkGameEndConditions g mid) s'');
    [done| |done].
  destruct Hext as [Hle _]. lia.
Qed.

Lemma eliminatePlayer_cancels_risk_timer_witness :
  ∃ s',
    eliminatePlayer "G" "P1" (Some "caught") busyState = (true, s') ∧
    riskTimerOf s' "G" "P1" = None ∧
    pending s' !! 1 = None ∧
    ∀ later s'', run later s' = Some s'' → EvFire 1 ∉ later.
Proof.
  apply (eliminatePlayer_cancels_risk_timer "G" "P1" (Some "caught") busyState
           busyGame
           (Player.mk "P1" "Ann" "survivor" "NONE" "sock1" elimination_risk
              0 None None) 1).
  - exists 0%Z, busyEvents. vm_compute. reflexivity.
  - vm_compute. reflexivity.
  - vm_compute. reflexivity.
  - vm_compute. reflexivity.
Defined.

(** X9. Start then stop.  For a player [p] of a registered game,
    [startEliminationRiskTimer] followed by [stopEliminationRiskTimer] both
    return [true] and leave [p] with status [alive] and without a timer,
    whatever the status of [p] was before (an eliminated player is alive
    after the two calls; the elimination record is kept).  The timeout
    armed by the start is disarmed again, as is the handle the map held
    before; the other players and their timers are untouched. *)
Theorem start_stop_risk_round_trip
    (g p : string) (d : option Z) (s : Server)
    (game : Game.t) (player : Player.t) :
  games s !! g = Some game →
  Game.players game !! p = Some player →
  ∃ s1 s2,
    startEliminationRiskTimer g p d s = (true, s1) ∧
    stopEliminationRiskTimer g p s1 = (true, s2) ∧
    riskTimerOf s2 g p = None ∧
    playerOf s2 g p = Some (Player.set_status alive player) ∧
    pending s2 =
      delete (nextTimer s)
        (disarm (option_list (Game.eliminationRiskTimers game !! p))
           (pending s)) ∧
    (∀ q, q ≠ p →
          playerOf s2 g q = playerOf s g q ∧
          riskTimerOf s2 g q = riskTimerOf s g q).
Proof.
  intros Hg Hp.
  unfold startEliminationRiskTimer, stopEliminationRiskTimer, playerOf,
    riskTimerOf.
  rewrite Hg, Hp. cbn. eexists _, _. split; [reflexivity|]. cbn.
  autorewrite with prims. rewrite !lookup_insert_eq. cbn.
  rewrite !lookup_insert_eq. cbn. split; [reflexivity|]. cbn.
  rewrite !lookup_insert_eq. cbn. rewrite lookup_delete_eq, lookup_insert_eq.
  split; [done|]. split; [reflexivity|].
  autorewrite with prims. rewrite delete_insert_eq. split; [done|].
  intros q Hq. rewrite !lookup_insert_ne by congruence.
  rewrite lookup_delete_ne by congruence.
  by rewrite lookup_insert_ne by congruence.
Qed.

Lemma start_stop_risk_round_trip_witness :
  let s :=
    default (init 0)
      (run [EvJoin "sock1" "G" "P1" "Ann" "survivor" "NONE";
            EvEliminate "G" "P1" (Some "caught")] (init 0)) in
  let player :=
    Player.mk "P1" "Ann" "survivor" "NONE" "sock1" eliminated 0 (Some 0%Z)
      (Some "caught") in
  let game :=
    Game.mk "G" {["P1" := player]} waiting
      (Settings.mk 600000 100000 5000 3 3000)
      None ∅ ∅ None None 0 None None in
  ∃ s1 s2,
    startEliminationRiskTimer "G" "P1" None s = (true, s1) ∧
    stopEliminationRiskTimer "G" "P1" s1 = (true, s2) ∧
    riskTimerOf s2 "G" "P1" = None ∧
    playerOf s2 "G" "P1" = Some (Player.set_status alive player) ∧
    pending s2 =
      delete (nextTimer s)
        (disarm (option_list (Game.eliminationRiskTimers game !! "P1"))
           (pending s)) ∧
    (∀ q, q ≠ "P1" →
          playerOf s2 "G" q = playerOf s "G" q ∧
          riskTimerOf s2 "G" q = riskTimerOf s "G" q).
Proof.
  intros s player game.
  apply (start_stop_risk_round_trip "G" "P1" None s game player).
  - vm_compute. reflexivity.
  - vm_compute. reflexivity.
Defined.

(** ** Chases *)

(** X10. The three chase methods only touch chase timers.
    [startChaseCountdown] succeeds on every registered game, whether or not
    the two ids are players of it; it, [stopChaseCountdown] and
    [chaseTimeout] leave the players, status, settings, game timer and
    elimination-risk timers of every game and all bindings as they are: a
    chase that times out eliminates nobody and ends no game. *)
Theorem chase_methods_touch_only_chase_timers
    (g hu v : string) (ghost : bool) (s : Server) :
  (is_Some (games s !! g) → (startChaseCountdown g hu v ghost s).1 = true) ∧
  (∀ s', s' = (startChaseCountdown g hu v ghost s).2 ∨
         s' = (stopChaseCountdown g hu v s).2 ∨
         s' = chaseTimeout g hu v s →
     players s' = players s ∧
     ∀ g', nonChasePart <$> games s' !! g' = nonChasePart <$> games s !! g').
Proof.
  split.
  { intros [game Hg]. unfold startChaseCountdown. by rewrite Hg. }
  intros s' [->|[->| ->]].
  all: unfold startChaseCountdown, stopChaseCountdown, chaseTimeout.
  all: destruct (games s !! g) as [game|] eqn:Hg; [|done]; cbn.
  all: try (destruct (Game.chaseTimers game !! timerKey hu v) eqn:Hk; cbn).
  all: autorewrite with prims; split; try done; intros g'.
  all: destruct (decide (g = g')) as [<-|Hne];
    [rewrite ?lookup_insert_eq, Hg; done|by rewrite ?lookup_insert_ne].
Qed.

(** ** Records sit under their own ids *)

Ltac split_lookups :=
  repeat match goal with
  | H : <[?a := _]> _ !! ?b = Some _ |- _ =>
      destruct (decide (a = b)); simplify_map_eq
  | H : delete ?a _ !! ?b = Some _ |- _ =>
      destruct (decide (a = b)); simplify_map_eq
  | H : filter _ _ !! _ = Some _ |- _ =>
      apply map_lookup_filter_Some in H as [H _]
  end.

Ltac wellKeyed_tac :=
  cbn; repeat (case_match; simplify_eq; cbn in * ); try done;
  match goal with
  | Hinv : wellKeyed _ |- _ =>
      let Hgames := fresh "Hgames" in
      let Hbind := fresh "Hbind" in
      destruct Hinv as [Hgames Hbind];
      (split; cbn; autorewrite with prims; cbn; intros ? ? ?);
      split_lookups; cbn;
      try (by eapply Hbind); try (by eapply Hgames);
      try match goal with
      | Hg : games _ !! _ = Some _ |- _ ∧ _ ∧ _ =>
          let Hid := fresh in
          let Hset := fresh in
          let Hpl := fresh in
          destruct (Hgames _ _ Hg) as (Hid & Hset & Hpl);
          (split; [done|]); (split; [done|]);
          intros ? ? ?; split_lookups; cbn; eauto
      end;
      try done;
      try (split; [done|]; split; [done|]; intros ? ? ?; split_lookups; done)
  end.

Lemma wellKeyed_endGame g reason s :
  wellKeyed s → wellKeyed (endGame g reason s).2.
Proof. intros Hinv. unfold endGame. wellKeyed_tac. Qed.

Lemma wellKeyed_checkGameEndConditions g s :
  wellKeyed s → wellKeyed (checkGameEndConditions g s).
Proof.
  intros Hinv. unfold checkGameEndConditions.
  repeat case_match; try done. by apply wellKeyed_endGame.
Qed.

Lemma wellKeyed_eliminatePlayer g p reason s :
  wellKeyed s → wellKeyed (eliminatePlayer g p reason s).2.
Proof.
  intros Hinv. unfold eliminatePlayer.
  cbn; repeat (case_match; simplify_eq; cbn in * ); try done;
    apply wellKeyed_checkGameEndConditions; wellKeyed_tac.
Qed.

Lemma wellKeyed_chaseTimeout g hu v s :
  wellKeyed s → wellKeyed (chaseTimeout g hu v s).
Proof. intros Hinv. unfold chaseTimeout. wellKeyed_tac. Qed.

Lemma wellKeyed_cleanupGame g s :
  wellKeyed s → wellKeyed (cleanupGame g s).
Proof. intros Hinv. unfold cleanupGame. wellKeyed_tac. Qed.

Lemma wellKeyed_joinGame socketId g p playerName role ability s :
  wellKeyed s → wellKeyed (joinGame socketId g p playerName role ability s).2.
Proof. intros Hinv. unfold joinGame, getOrCreateGame. wellKeyed_tac. Qed.

Lemma wellKeyed_startGameTimer g d s :
  wellKeyed s → wellKeyed (startGameTimer g d s).2.
Proof. intros Hinv. unfold startGameTimer. wellKeyed_tac. Qed.

Lemma wellKeyed_startEliminationRiskTimer g p d s :
  wellKeyed s → wellKeyed (startEliminationRiskTimer g p d s).2.
Proof. intros Hinv. unfold startEliminationRiskTimer. wellKeyed_tac. Qed.

Lemma wellKeyed_stopEliminationRiskTimer g p s :
  wellKeyed s → wellKeyed (stopEliminationRiskTimer g p s).2.
Proof. intros Hinv. unfold stopEliminationRiskTimer. wellKeyed_tac. Qed.

Lemma wellKeyed_startChaseCountdown g hu v ghost s :
  wellKeyed s → wellKeyed (startChaseCountdown g hu v ghost s).2.
Proof. intros Hinv. unfold startChaseCountdown. wellKeyed_tac. Qed.

Lemma wellKeyed_stopChaseCountdown g hu v s :
  wellKeyed s → wellKeyed (stopChaseCountdown g hu v s).2.
Proof. intros Hinv. unfold stopChaseCountdown. wellKeyed_tac. Qed.

Lemma wellKeyed_disconnectPlayer socketId s :
  wellKeyed s → wellKeyed (disconnectPlayer socketId s).
Proof. intros Hinv. unfold disconnectPlayer. wellKeyed_tac. Qed.

Lemma wellKeyed_step e s s' : wellKeyed s → step e s = Some s' → wellKeyed s'.
Proof.
  intros Hinv. destruct e; unfold step; intros Hs; simplify_eq;
    auto using wellKeyed_startGameTimer, wellKeyed_startEliminationRiskTimer,
      wellKeyed_stopEliminationRiskTimer, wellKeyed_startChaseCountdown,
      wellKeyed_stopChaseCountdown, wellKeyed_eliminatePlayer, wellKeyed_endGame,
      wellKeyed_disconnectPlayer.
  - by apply (wellKeyed_joinGame socketId gameId playerId playerName role ability)
      in Hinv.
  - unfold fire in Hs. repeat case_match; simplify_eq.
    assert (Hc : wellKeyed (clearTimeout h s)) by done.
    destruct (callback t); cbn;
      auto using wellKeyed_endGame, wellKeyed_eliminatePlayer, wellKeyed_chaseTimeout,
        wellKeyed_cleanupGame.
Qed.

Lemma wellKeyed_reachable s : reachable s → wellKeyed s.
Proof.
  intros (t0 & evs & Hr).
  assert (Hinit : wellKeyed (init t0)).
  { split; [intros g game Hg|intros sock b Hg]; cbn in Hg; by rewrite lookup_empty in Hg. }
  revert Hinit Hr. generalize (init t0). clear t0.
  induction evs as [|e evs IH]; intros s0 Hinv Hr; cbn in Hr.
  - by simplify_eq.
  - destruct (step e s0) as [s1|] eqn:Hs; [|done].
    apply (IH s1); [|done]. by eapply wellKeyed_step.
Qed.

(** ** Only players have an elimination-risk timer *)

Ltac riskHasPlayer_tac :=
  cbn; repeat (case_match; simplify_eq; cbn in * ); try done;
  unfold riskHasPlayer in *; cbn; autorewrite with prims; cbn;
  intros ? ? ? ? ? ?; split_lookups; cbn in *; split_lookups;
  simplify_map_eq; eauto;
  repeat match goal with
  | |- context [<[?a := _]> _ !! ?b] =>
      destruct (decide (a = b)); simplify_map_eq
  | |- context [delete ?a _ !! ?b] =>
      destruct (decide (a = b)); simplify_map_eq
  end; eauto.

Lemma riskHasPlayer_endGame g reason s :
  riskHasPlayer s → riskHasPlayer (endGame g reason s).2.
Proof. intros Hinv. unfold endGame. riskHasPlayer_tac. Qed.

Lemma riskHasPlayer_checkGameEndConditions g s :
  riskHasPlayer s → riskHasPlayer (checkGameEndConditions g s).
Proof.
  intros Hinv. unfold checkGameEndConditions.
  repeat case_match; try done. by apply riskHasPlayer_endGame.
Qed.

Lemma riskHasPlayer_eliminatePlayer g p reason s :
  riskHasPlayer s → riskHasPlayer (eliminatePlayer g p reason s).2.
Proof.
  intros Hinv. unfold eliminatePlayer.
  cbn; repeat (case_match; simplify_eq; cbn in * ); try done;
    apply riskHasPlayer_checkGameEndConditions; riskHasPlayer_tac.
Qed.

Lemma riskHasPlayer_chaseTimeout g hu v s :
  riskHasPlayer s → riskHasPlayer (chaseTimeout g hu v s).
Proof. intros Hinv. unfold chaseTimeout. riskHasPlayer_tac. Qed.

Lemma riskHasPlayer_cleanupGame g s :
  riskHasPlayer s → riskHasPlayer (cleanupGame g s).
Proof. intros Hinv. unfold cleanupGame. riskHasPlayer_tac. Qed.

Lemma riskHasPlayer_joinGame socketId g p playerName role ability s :
  riskHasPlayer s → riskHasPlayer (joinGame socketId g p playerName role ability s).2.
Proof. intros Hinv. unfold joinGame, getOrCreateGame. riskHasPlayer_tac. Qed.

Lemma riskHasPlayer_startGameTimer g d s :
  riskHasPlayer s → riskHasPlayer (startGameTimer g d s).2.
Proof. intros Hinv. unfold startGameTimer. riskHasPlayer_tac. Qed.

Lemma riskHasPlayer_startEliminationRiskTimer g p d s :
  riskHasPlayer s → riskHasPlayer (startEliminationRiskTimer g p d s).2.
Proof. intros Hinv. unfold startEliminationRiskTimer. riskHasPlayer_tac. Qed.

Lemma riskHasPlayer_stopEliminationRiskTimer g p s :
  riskHasPlayer s → riskHasPlayer (stopEliminationRiskTimer g p s).2.
Proof. intros Hinv. unfold stopEliminationRiskTimer. riskHasPlayer_tac. Qed.

Lemma riskHasPlayer_startChaseCountdown g hu v ghost s :
  riskHasPlayer s → riskHasPlayer (startChaseCountdown g hu v ghost s).2.
Proof. intros Hinv. unfold startChaseCountdown. riskHasPlayer_tac. Qed.

Lemma riskHasPlayer_stopChaseCountdown g hu v s :
  riskHasPlayer s → riskHasPlayer (stopChaseCountdown g hu v s).2.
Proof. intros Hinv. unfold stopChaseCountdown. riskHasPlayer_tac. Qed.

Lemma riskHasPlayer_disconnectPlayer socketId s :
  riskHasPlayer s → riskHasPlayer (disconnectPlayer socketId s).
Proof. intros Hinv. unfold disconnectPlayer. riskHasPlayer_tac. Qed.

Lemma riskHasPlayer_step e s s' : riskHasPlayer s → step e s = Some s' → riskHasPlayer s'.
Proof.
  intros Hinv. destruct e; unfold step; intros Hs; simplify_eq;
    auto using riskHasPlayer_startGameTimer, riskHasPlayer_startEliminationRiskTimer,
      riskHasPlayer_stopEliminationRiskTimer, riskHasPlayer_startChaseCountdown,
      riskHasPlayer_stopChaseCountdown, riskHasPlayer_eliminatePlayer, riskHasPlayer_endGame,
      riskHasPlayer_disconnectPlayer.
  - by apply (riskHasPlayer_joinGame socketId gameId playerId playerName role ability)
      in Hinv.
  - unfold fire in Hs. repeat case_match; simplify_eq.
    assert (Hc : riskHasPlayer (clearTimeout h s)) by done.
    destruct (callback t); cbn;
      auto using riskHasPlayer_endGame, riskHasPlayer_eliminatePlayer, riskHasPlayer_chaseTimeout,
        riskHasPlayer_cleanupGame.
Qed.

Lemma riskHasPlayer_reachable s : reachable s → riskHasPlayer s.
Proof.
  intros (t0 & evs & Hr).
  assert (Hinit : riskHasPlayer (init t0)).
  { intros g game p h Hg; cbn in Hg; by rewrite lookup_empty in Hg. }
  revert Hinit Hr. generalize (init t0). clear t0.
  induction evs as [|e evs IH]; intros s0 Hinv Hr; cbn in Hr.
  - by simplify_eq.
  - destruct (step e s0) as [s1|] eqn:Hs; [|done].
    apply (IH s1); [|done]. by eapply riskHasPlayer_step.
Qed.

(** ** Every handle a game holds is armed *)

Ltac exhibit sl :=
  right; eexists _, _, sl; split; [eassumption|]; split; [cbn; eassumption|];
  let Hg' := fresh in
  intros ? Hg'; cbn in Hg'; autorewrite with prims in Hg';
  rewrite ?lookup_insert_eq in Hg'; simplify_eq; cbn;
  rewrite ?lookup_insert_eq, ?lookup_delete_eq, ?lookup_empty;
  intros ?; simplify_eq; lia.

Ltac exhibit_any h0 :=
  first [ exhibit GameSlot
        | match goal with
          | H : Game.eliminationRiskTimers _ !! ?p = Some h0 |- _ =>
              exhibit (RiskSlot p)
          end
        | match goal with
          | H : Game.chaseTimers _ !! ?k = Some h0 |- _ =>
              exhibit (ChaseSlot k)
          end ].

Ltac releasedOnly_tac :=
  cbn; repeat (case_match; simplify_eq; cbn in * );
  try (intros ? ? ? ?; by left);
  repeat match goal with
  | |- context [clearIfSet ?o _] => destruct o eqn:?; cbn
  end;
  intros ? ? ? ?; cbn; autorewrite with prims; cbn;
  repeat match goal with
  | |- context [delete ?x _ !! ?h0] =>
      destruct (decide (x = h0)) as [->|?];
      [exhibit_any h0|rewrite (lookup_delete_ne _ x h0) by done]
  | |- context [disarm (handlesOf ?m) _ !! ?h0] =>
      let Hin := fresh in
      rewrite (lookup_disarm (handlesOf m) _ h0);
      destruct (decide (h0 ∈ handlesOf m)) as [Hin|?];
      [apply elem_of_handlesOf in Hin as [? ?]; exhibit_any h0|]
  | |- context [disarm [] _] => cbn
  | |- context [<[nextTimer ?s := _]> _ !! ?h0] =>
      rewrite (lookup_insert_ne _ (nextTimer s) h0) by lia
  end;
  try (by left).

Lemma releasedOnly_refl s : releasedOnly s s.
Proof. intros h t Hp Hlt. by left. Qed.

Lemma releasedOnly_trans s1 s2 s3 :
  slotsFrom None s1 s2 → slotsFrom None s2 s3 →
  nextTimer s1 ≤ nextTimer s2 →
  releasedOnly s1 s2 → releasedOnly s2 s3 → releasedOnly s1 s3.
Proof.
  intros H12 H23 Hle R12 R23 h t Hp Hlt.
  destruct (R12 h t Hp Hlt) as [Hp2|(g & game & sl & Hg & Hat & Hch)].
  - destruct (R23 h t Hp2) as [?|(g & game2 & sl & Hg2 & Hat2 & Hch)];
      [lia|by left|].
    destruct (H12 g game2 sl h Hg2 Hat2) as [(game1 & Hg1 & Hat1)|[? _]];
      [|done].
    right. exists g, game1, sl. done.
  - right. exists g, game, sl. do 2 (split; [done|]).
    intros game3 Hg3 Hat3.
    destruct (H23 g game3 sl h Hg3 Hat3) as [(game2 & Hg2 & Hat2)|[? _]];
      [|done].
    by apply (Hch game2).
Qed.

Lemma releasedOnly_endGame g reason s : releasedOnly s (endGame g reason s).2.
Proof. unfold endGame. releasedOnly_tac. Qed.

Lemma releasedOnly_checkGameEndConditions g s :
  releasedOnly s (checkGameEndConditions g s).
Proof.
  unfold checkGameEndConditions.
  repeat case_match; try apply releasedOnly_refl. apply releasedOnly_endGame.
Qed.

Lemma releasedOnly_eliminatePlayer g p reason s :
  releasedOnly s (eliminatePlayer g p reason s).2.
Proof.
  unfold eliminatePlayer.
  cbn; repeat (case_match; simplify_eq; cbn in * );
    try apply releasedOnly_refl.
  all: match goal with
       | |- releasedOnly _ (checkGameEndConditions _ ?m) =>
           apply (releasedOnly_trans _ m);
           [|apply slotsFrom_checkGameEndConditions|cbn; lia|
            |apply releasedOnly_checkGameEndConditions]
       end.
  all: try slotsFrom_tac.
  all: releasedOnly_tac.
Qed.

Lemma releasedOnly_chaseTimeout g hu v s :
  releasedOnly s (chaseTimeout g hu v s).
Proof. unfold chaseTimeout. releasedOnly_tac. Qed.

Lemma releasedOnly_cleanupGame g s : releasedOnly s (cleanupGame g s).
Proof. unfold cleanupGame. releasedOnly_tac. Qed.

Lemma releasedOnly_joinGame socketId g p playerName role ability s :
  releasedOnly s (joinGame socketId g p playerName role ability s).2.
Proof. unfold joinGame, getOrCreateGame. releasedOnly_tac. Qed.

Lemma releasedOnly_startGameTimer g d s :
  releasedOnly s (startGameTimer g d s).2.
Proof. unfold startGameTimer. releasedOnly_tac. Qed.

Lemma releasedOnly_startEliminationRiskTimer g p d s :
  releasedOnly s (startEliminationRiskTimer g p d s).2.
Proof. unfold startEliminationRiskTimer. releasedOnly_tac. Qed.

Lemma releasedOnly_stopEliminationRiskTimer g p s :
  releasedOnly s (stopEliminationRiskTimer g p s).2.
Proof. unfold stopEliminationRiskTimer. releasedOnly_tac. Qed.

Lemma releasedOnly_startChaseCountdown g hu v ghost s :
  releasedOnly s (startChaseCountdown g hu v ghost s).2.
Proof. unfold startChaseCountdown. releasedOnly_tac. Qed.

Lemma releasedOnly_stopChaseCountdown g hu v s :
  releasedOnly s (stopChaseCountdown g hu v s).2.
Proof. unfold stopChaseCountdown. releasedOnly_tac. Qed.

Lemma releasedOnly_disconnectPlayer socketId s :
  releasedOnly s (disconnectPlayer socketId s).
Proof. unfold disconnectPlayer. releasedOnly_tac. Qed.

Lemma armedTyped_preserved fresh s s' :
  slotsFrom fresh s s' → freshArmed fresh s s' → releasedOnly s s' →
  handlesBelow s → uniqueHandles s → armedTyped s → armedTyped s'.
Proof.
  intros Hfrom Hfresh Hrel Hb Hu Ha g game' sl h Hg' Hat'.
  destruct (Hfrom g game' sl h Hg' Hat') as [(game & Hg & Hat)|[Hf ->]].
  - destruct (Ha g game sl h Hg Hat) as (t & Hp & Hcb).
    exists t. split; [|done].
    destruct (Hrel h t Hp) as [?|(g2 & game2 & sl2 & Hg2 & Hat2 & Hch)];
      [|done|].
    { eapply Hb; [exact Hg|]. by eapply handleAt_recorded. }
    destruct (Hu g game sl g2 game2 sl2 h Hg Hat Hg2 Hat2) as [-> ->].
    by destruct (Hch game' Hg').
  - by apply Hfresh.
Qed.

Lemma freshArmed_None s s' : freshArmed None s s'.
Proof. by intros g sl ?. Qed.

Lemma callback_clears_slot g game sl h cb x :
  games x !! g = Some game → handleAt game sl = Some h →
  slotCallback g sl cb → riskHasPlayer x →
  ∀ game', games (runCallback cb x) !! g = Some game' →
           handleAt game' sl = None.
Proof.
  intros Hg Hat Hcb Hrp game' Hg'. destruct sl; cbn in Hcb, Hat.
  - subst cb. cbn in Hg'.
    destruct (endGame_true g "timeout" x game Hg)
      as (s' & game'' & He & Hg'' & _ & Ht & _).
    rewrite He in Hg'. cbn in Hg'. by simplify_eq.
  - subst cb. cbn in Hg'.
    destruct (Hrp g game playerId h Hg Hat) as [player Hp].
    pose proof (eliminatePlayer_risk_gone g playerId
                  (Some "elimination_risk_timeout") x game player Hg Hp)
      as Hgone.
    unfold riskTimerOf in Hgone. by rewrite Hg' in Hgone.
  - destruct Hcb as (hu & v & -> & ->). cbn in Hg'.
    unfold chaseTimeout in Hg'. rewrite Hg in Hg'. cbn in Hg'.
    rewrite lookup_insert_eq in Hg'. simplify_eq. cbn.
    apply lookup_delete_eq.
Qed.

Lemma slotsFrom_runCallback cb s : slotsFrom None s (runCallback cb s).
Proof.
  destruct cb; cbn;
    auto using slotsFrom_endGame, slotsFrom_eliminatePlayer,
      slotsFrom_chaseTimeout, slotsFrom_cleanupGame.
Qed.

Lemma releasedOnly_runCallback cb s : releasedOnly s (runCallback cb s).
Proof.
  destruct cb; cbn;
    auto using releasedOnly_endGame, releasedOnly_eliminatePlayer,
      releasedOnly_chaseTimeout, releasedOnly_cleanupGame.
Qed.

Lemma armedTyped_fire h t s :
  pending s !! h = Some t →
  handlesBelow s → uniqueHandles s → riskHasPlayer s → armedTyped s →
  armedTyped (runCallback (callback t) (clearTimeout h s)).
Proof.
  intros Hp Hb Hu Hrp Ha g game' sl h' Hg' Hat'.
  set (x := clearTimeout h s) in *.
  destruct (slotsFrom_runCallback (callback t) x g game' sl h' Hg' Hat')
    as [(game & Hg & Hat)|[? _]]; [|done].
  destruct (Ha g game sl h' Hg Hat) as (t' & Hp' & Hcb).
  destruct (decide (h' = h)) as [->|Hne].
  - rewrite Hp in Hp'. simplify_eq.
    pose proof (callback_clears_slot g game sl h (callback t') x Hg Hat Hcb
                  Hrp game' Hg') as Hnone.
    congruence.
  - exists t'. split; [|done].
    assert (Hpx : pending x !! h' = Some t')
      by (subst x; cbn; by rewrite lookup_delete_ne).
    destruct (releasedOnly_runCallback (callback t) x h' t' Hpx)
      as [?|(g2 & game2 & sl2 & Hg2 & Hat2 & Hch)]; [|done|].
    { eapply Hb; [exact Hg|]. by eapply handleAt_recorded. }
    destruct (Hu g game sl g2 game2 sl2 h' Hg Hat Hg2 Hat2) as [-> ->].
    by destruct (Hch game' Hg').
Qed.

Lemma armedTyped_step e s s' :
  handlesBelow s → uniqueHandles s → riskHasPlayer s → armedTyped s →
  step e s = Some s' → armedTyped s'.
Proof.
  intros Hb Hu Hrp Ha. destruct e; unfold step; intros Hs; simplify_eq.
  - assert (Hj : armedTyped
                   (joinGame socketId gameId playerId playerName role ability
                      s).2).
    { eapply (armedTyped_preserved None s); eauto using slotsFrom_joinGame,
        freshArmed_None, releasedOnly_joinGame. }
    exact Hj.
  - destruct (games s !! gameId) as [game|] eqn:Hg;
      [|unfold startGameTimer; by rewrite Hg].
    eapply (armedTyped_preserved _ s);
      eauto using slotsFrom_startGameTimer, releasedOnly_startGameTimer.
    intros g sl [= <- <-]. unfold startGameTimer. rewrite Hg. cbn.
    autorewrite with prims. rewrite lookup_insert_eq. eauto.
  - destruct (games s !! gameId) as [game|] eqn:Hg;
      [|unfold startEliminationRiskTimer; by rewrite Hg].
    destruct (Game.players game !! playerId) as [player|] eqn:Hpl;
      [|unfold startEliminationRiskTimer; by rewrite Hg, Hpl].
    eapply (armedTyped_preserved _ s);
      eauto using slotsFrom_startEliminationRiskTimer,
        releasedOnly_startEliminationRiskTimer.
    intros g sl [= <- <-]. unfold startEliminationRiskTimer.
    rewrite Hg, Hpl. cbn. autorewrite with prims.
    rewrite lookup_insert_eq. eauto.
  - eapply (armedTyped_preserved None s);
      eauto using slotsFrom_stopEliminationRiskTimer, freshArmed_None,
        releasedOnly_stopEliminationRiskTimer.
  - destruct (games s !! gameId) as [game|] eqn:Hg;
      [|unfold startChaseCountdown; by rewrite Hg].
    eapply (armedTyped_preserved _ s);
      eauto using slotsFrom_startChaseCountdown,
        releasedOnly_startChaseCountdown.
    intros g sl [= <- <-]. unfold startChaseCountdown. rewrite Hg. cbn.
    autorewrite with prims. rewrite lookup_insert_eq.
    eexists. split; [reflexivity|]. cbn. by eexists _, _.
  - eapply (armedTyped_preserved None s);
      eauto using slotsFrom_stopChaseCountdown, freshArmed_None,
        releasedOnly_stopChaseCountdown.
  - eapply (armedTyped_preserved None s);
      eauto using slotsFrom_eliminatePlayer, freshArmed_None,
        releasedOnly_eliminatePlayer.
  - eapply (armedTyped_preserved None s);
      eauto using slotsFrom_endGame, freshArmed_None, releasedOnly_endGame.
  - eapply (armedTyped_preserved None s);
      eauto using slotsFrom_disconnectPlayer, freshArmed_None,
        releasedOnly_disconnectPlayer.
  - unfold fire in Hs. repeat case_match; simplify_eq.
    by apply armedTyped_fire.
  - exact Ha.
Qed.

Lemma armedTyped_reachable s : reachable s → armedTyped s.
Proof.
  intros (t0 & evs & Hr).
  assert (Hinit : handlesBelow (init t0) ∧ uniqueHandles (init t0) ∧
                  riskHasPlayer (init t0) ∧ armedTyped (init t0)).
  { split; [|split; [|split]].
    - intros g game h Hg. cbn in Hg. by rewrite lookup_empty in Hg.
    - intros g1 game1 sl1 g2 game2 sl2 h Hg. cbn in Hg.
      by rewrite lookup_empty in Hg.
    - intros g game p h Hg. cbn in Hg. by rewrite lookup_empty in Hg.
    - intros g game sl h Hg. cbn in Hg. by rewrite lookup_empty in Hg. }
  revert Hinit Hr. generalize (init t0). clear t0.
  induction evs as [|e evs IH]; intros s0 (Hb & Hu & Hrp & Ha) Hr; cbn in Hr.
  - by simplify_eq.
  - destruct (step e s0) as [s1|] eqn:Hs; [|done].
    apply (IH s1); [|done].
    split; [by eapply handlesBelow_step|].
    split.
    { destruct (slotsFrom_step e s0 s1 Hs) as [fresh Hfrom].
      by eapply slotsFrom_invariant. }
    split; [by eapply riskHasPlayer_step|]. by eapply armedTyped_step.
Qed.

(** ** Invariants of the reachable states *)

(** X11. In every reachable state, every handle held by [game.timers] (the
    game timer, an elimination-risk timer, a chase timer) is an armed
    timeout, and its callback is the one of its slot: [endGame(g,'timeout')]
    for the game timer of [g], [eliminatePlayer(g,p,'elimination_risk_timeout')]
    for the risk timer of [p], [chaseTimeout(g,hunter,survivor)] for a chase
    timer whose key is that of the pair.  No slot keeps the handle of a
    timeout that fired or was cleared. *)
Theorem recorded_handles_are_armed
    (s : Server) (g : string) (game : Game.t) (sl : Slot) (h : handle) :
  reachable s →
  games s !! g = Some game →
  handleAt game sl = Some h →
  ∃ t, pending s !! h = Some t ∧ slotCallback g sl (callback t).
Proof. intros Hreach. by apply armedTyped_reachable. Qed.

Lemma recorded_handles_are_armed_witness :
  ∃ t, pending busyState !! 2 = Some t ∧
       slotCallback "G" (ChaseSlot "H1_S1") (callback t).
Proof.
  apply (recorded_handles_are_armed busyState "G" busyGame (ChaseSlot "H1_S1") 2).
  - exists 0%Z, busyEvents. vm_compute. reflexivity.
  - vm_compute. reflexivity.
  - vm_compute. reflexivity.
Defined.

(** X12. In every reachable state no handle is held by two slots (of one
    game or of two games), and every handle a game holds was handed out by
    an earlier [setTimeout]: it is below the counter of handles, so a later
    [setTimeout] never returns it again. *)
Theorem recorded_handles_are_unique
    (s : Server) (g1 g2 : string) (game1 game2 : Game.t) (sl1 sl2 : Slot)
    (h : handle) :
  reachable s →
  games s !! g1 = Some game1 → handleAt game1 sl1 = Some h →
  games s !! g2 = Some game2 → handleAt game2 sl2 = Some h →
  g1 = g2 ∧ sl1 = sl2 ∧ h < nextTimer s.
Proof.
  intros Hreach Hg1 Hh1 Hg2 Hh2.
  destruct (uniqueHandles_reachable s Hreach g1 game1 sl1 g2 game2 sl2 h
              Hg1 Hh1 Hg2 Hh2) as [-> ->].
  do 2 (split; [done|]).
  eapply (handlesBelow_reachable s Hreach); [exact Hg1|].
  by eapply handleAt_recorded.
Qed.

Lemma recorded_handles_are_unique_witness :
  "G" = "G" ∧ RiskSlot "P1" = RiskSlot "P1" ∧ 1 < nextTimer busyState.
Proof.
  apply (recorded_handles_are_unique busyState "G" "G" busyGame busyGame
           (RiskSlot "P1") (RiskSlot "P1") 1).
  - exists 0%Z, busyEvents. vm_compute. reflexivity.
  - vm_compute. reflexivity.
  - vm_compute. reflexivity.
  - vm_compute. reflexivity.
  - vm_compute. reflexivity.
Defined.

(** X13. In every reachable state each game is registered under its own
    [id], each player record under its own [playerId], each binding under
    its own [socketId]; and every game has the built-in settings (600000,
    100000, 5000, 3.0, 3000): [joinGame] is the only caller of
    [getOrCreateGame] and supplies none, and no method writes
    [game.settings]. *)
Theorem reachable_records_well_keyed (s : Server) :
  reachable s →
  (∀ g game, games s !! g = Some game →
     Game.id game = g ∧
     Game.settings game = Settings.mk 600000 100000 5000 3 3000 ∧
     ∀ p pl, Game.players game !! p = Some pl → Player.playerId pl = p) ∧
  (∀ sock b, players s !! sock = Some b → Binding.socketId b = sock).
Proof. intros Hreach. by apply wellKeyed_reachable. Qed.

Lemma reachable_records_well_keyed_witness :
  (∀ g game, games busyState !! g = Some game →
     Game.id game = g ∧
     Game.settings game = Settings.mk 600000 100000 5000 3 3000 ∧
     ∀ p pl, Game.players game !! p = Some pl → Player.playerId pl = p) ∧
  (∀ sock b, players busyState !! sock = Some b → Binding.socketId b = sock).
Proof.
  apply (reachable_records_well_keyed busyState).
  exists 0%Z, busyEvents. vm_compute. reflexivity.
Defined.

(** X14. In every reachable state every binding names a registered game,
    and every player id that has an elimination-risk timer in a game is a
    player of that game. *)
Theorem reachable_references_resolve (s : Server) :
  reachable s →
  (∀ sock b, players s !! sock = Some b →
             is_Some (games s !! Binding.gameId b)) ∧
  (∀ g p h, riskTimerOf s g p = Some h → is_Some (playerOf s g p)).
Proof.
  intros Hreach. split.
  - by apply bindingsHaveGames_reachable.
  - intros g p h Hr. unfold riskTimerOf, playerOf in *.
    destruct (games s !! g) as [game|] eqn:Hg; [|done]. cbn in *.
    by eapply (riskHasPlayer_reachable s Hreach).
Qed.

Lemma reachable_references_resolve_witness :
  (∀ sock b, players busyState !! sock = Some b →
             is_Some (games busyState !! Binding.gameId b)) ∧
  (∀ g p h, riskTimerOf busyState g p = Some h →
            is_Some (playerOf busyState g p)).
Proof.
  apply (reachable_references_resolve busyState).
  exists 0%Z, busyEvents. vm_compute. reflexivity.
Defined.



(** X16. In a reachable state a stop that returns [true] cancels a live
    timeout.  For [stopEliminationRiskTimer(g,p)] it is an armed timeout
    whose callback is [eliminatePlayer(g,p,'elimination_risk_timeout')]; for
    [stopChaseCountdown(g,hunter,survivor)] it is an armed timeout whose
    callback is [chaseTimeout] for a pair with the same key (the pair
    itself, unless two pairs share the key).  That timeout is the only one
    removed from the table, and it never fires afterwards. *)
Theorem successful_stop_cancels_live_timer (s : Server) (g : string) :
  reachable s →
  (∀ p s',
     stopEliminationRiskTimer g p s = (true, s') →
     ∃ h t,
       pending s !! h = Some t ∧
       callback t = CbEliminatePlayer g p "elimination_risk_timeout" ∧
       pending s' = delete h (pending s) ∧
       ∀ later s'', run later s' = Some s'' → EvFire h ∉ later) ∧
  (∀ hu v s',
     stopChaseCountdown g hu v s = (true, s') →
     ∃ h t hu' v',
       pending s !! h = Some t ∧
       callback t = CbChaseTimeout g hu' v' ∧
       timerKey hu' v' = timerKey hu v ∧
       pending s' = delete h (pending s) ∧
       ∀ later s'', run later s' = Some s'' → EvFire h ∉ later).
Proof.
  intros Hreach.
  pose proof (armedTyped_reachable s Hreach) as Ha.
  pose proof (handlesBelow_reachable s Hreach) as Hb.
  split.
  - intros p s' Hstop.
    destruct (stopEliminationRiskTimer_true g p s s' Hstop)
      as (h & Hrisk & Hpend & Hn & _).
    unfold riskTimerOf in Hrisk.
    destruct (games s !! g) as [game|] eqn:Hg; [|done]. cbn in Hrisk.
    destruct (Ha g game (RiskSlot p) h Hg Hrisk) as (t & Hp & Hcb).
    exists h, t. do 3 (split; [done|]). intros later s'' Hrun.
    apply (disarmed_never_fires h later s' s''); [|rewrite Hn|done].
    + rewrite Hpend. apply lookup_delete_eq.
    + apply (Hb g game h Hg). right. left. eauto.
  - intros hu v s' Hstop. unfold stopChaseCountdown in Hstop.
    destruct (games s !! g) as [game|] eqn:Hg; [|done]. cbn in Hstop.
    destruct (Game.chaseTimers game !! timerKey hu v) as [h|] eqn:Hk;
      [|done].
    cbn in Hstop. simplify_eq.
    destruct (Ha g game (ChaseSlot (timerKey hu v)) h Hg Hk)
      as (t & Hp & hu' & v' & Hkey & Hcb).
    exists h, t, hu', v'. do 2 (split; [done|]). split; [done|].
    split; [done|]. intros later s'' Hrun.
    eapply (disarmed_never_fires h later); [| |exact Hrun].
    + cbn. apply lookup_delete_eq.
    + cbn. apply (Hb g game h Hg). right. right. eauto.
Qed.

Lemma successful_stop_cancels_live_timer_witness :
  ∃ h t hu' v',
    pending busyState !! h = Some t ∧
    callback t = CbChaseTimeout "G" hu' v' ∧
    timerKey hu' v' = timerKey "H1" "S1" ∧
    pending (stopChaseCountdown "G" "H1" "S1" busyState).2 =
      delete h (pending busyState) ∧
    ∀ later s'',
      run later (stopChaseCountdown "G" "H1" "S1" busyState).2 = Some s'' →
      EvFire h ∉ later.
Proof.
  destruct (successful_stop_cancels_live_timer busyState "G") as [_ Hchase].
  - exists 0%Z, busyEvents. vm_compute. reflexivity.
  - apply (Hchase "H1" "S1"). vm_compute. reflexivity.
Defined.
